(** * tsh: a tiny shell with job control (src/tsh_tested.c)

    A shallow embedding of the job-control core of the shell: the job
    table and its helper routines, the three signal handlers, the
    foreground waiter, the [fg]/[bg] builtins and the spawn path of
    [eval].

    Conventions of the embedding.
    - C [int] and [pid_t] values are [Z].  The program only compares,
      copies and negates them; the one value that is cut to the 32 bits
      of an [int] is the number read by [atoi].
    - The global array [jobs[MAXJOBS]] is a [list job_t]; a pointer
      [struct job_t *] into it is an index ([option nat], [None] for
      NULL).
    - Everything the shell does to the outside world (printing, the
      system calls [kill], [fork], [waitpid], [sigprocmask]) is
      appended to a log of events kept in the shell state.
    - What the outside world answers (return values of system calls,
      which signals arrive and when) is passed in as explicit arguments.
      Handlers run at three kinds of places: between two command lines,
      as [eval] unblocks SIGCHLD, and while the shell sleeps in
      [sigsuspend].  The waiter is also given as a machine with one step
      per statement, where a handler may run between any two of them.
      A handler that runs at another place, such as inside [do_bgfg]
      between the lookup of the job and the store of its state, is
      outside the schedules described here.
    - [eval] takes the vector filled in by [parseline] as an argument;
      [parseline] itself is modelled on its own and composed with [eval]
      in [eval_cmdline]. *)

From Stdlib Require Import ZArith String Ascii DecimalString Lia.
From stdpp Require Import base tactics option list relations.

Open Scope string_scope.
Open Scope list_scope.
Open Scope Z_scope.

(** ** Manifest constants *)

Definition MAXJOBS : nat := 16.

Definition UNDEF : Z := 0.
Definition FG : Z := 1.
Definition BG : Z := 2.
Definition ST : Z := 3.

(** Signal numbers of <signal.h> (Linux values); the program itself only
    spells out the errno value 10 (ECHILD). *)
Definition SIGINT : Z := 2.
Definition SIGQUIT : Z := 3.
Definition SIGUSR1 : Z := 10.
Definition SIGCHLD : Z := 17.
Definition SIGCONT : Z := 18.
Definition SIGTSTP : Z := 20.

(** ** Text helpers: the [%d] conversion of printf and libc's [atoi] *)

Definition NL : string := String "010"%char EmptyString.

Definition dec (z : Z) : string := NilZero.string_of_int (Z.to_int z).

Fixpoint cat (l : list string) : string :=
  match l with
  | [] => EmptyString
  | s :: l' => String.append s (cat l')
  end.

Definition is_space (c : ascii) : bool :=
  let n := nat_of_ascii c in
  ((n =? 32) || ((9 <=? n) && (n <=? 13)))%nat.

Definition digit_of (c : ascii) : option Z :=
  let n := Z.of_nat (nat_of_ascii c) in
  if (48 <=? n) && (n <=? 57) then Some (n - 48) else None.

Fixpoint skip_spaces (s : string) : string :=
  match s with
  | String c s' => if is_space c then skip_spaces s' else s
  | EmptyString => s
  end.

Fixpoint digits (acc : Z) (s : string) : Z :=
  match s with
  | String c s' =>
      match digit_of c with
      | Some d => digits (10 * acc + d) s'
      | None => acc
      end
  | EmptyString => acc
  end.

(** A value kept within the range of a 64-bit [long], as [strtol] does
    on overflow (LONG_MIN, LONG_MAX). *)
Definition to_long (z : Z) : Z := Z.max (- 2 ^ 63) (Z.min z (2 ^ 63 - 1)).

(** The conversion of a [long] to the 32-bit [int]: the low 32 bits, in
    two's complement. *)
Definition to_int (z : Z) : Z := (z + 2 ^ 31) mod 2 ^ 32 - 2 ^ 31.

(** [strtol(s, NULL, 10)]: leading white space, an optional sign, then
    the longest run of decimal digits; 0 when there is none. *)
Definition strtol (s : string) : Z :=
  to_long
    match skip_spaces s with
    | String "-"%char s' => - digits 0 s'
    | String "+"%char s' => digits 0 s'
    | s' => digits 0 s'
    end.

(** [atoi].  The C library computes [(int) strtol(s, NULL, 10)]; the
    program stores the result in an [int], so a number that does not fit
    32 bits comes back cut to them. *)
Definition atoi (s : string) : Z := to_int (strtol s).

(** ** The job table *)

Record job_t := Job {
  pid : Z;          (* job PID *)
  jid : Z;          (* job ID [1, 2, ...] *)
  state : Z;        (* UNDEF, FG, BG, or ST *)
  cmdline : string  (* command line *)
}.

Definition set_state (st : Z) (j : job_t) : job_t :=
  {| pid := pid j; jid := jid j; state := st; cmdline := cmdline j |}.

(** clearjob - Clear the entries in a job struct *)
Definition clearjob (job : job_t) : job_t :=
  {| pid := 0; jid := 0; state := UNDEF; cmdline := EmptyString |}.

(** initjobs - Initialize the job list *)
Definition initjobs (jobs : list job_t) : list job_t := map clearjob jobs.

(** The zero-initialised global array, after [initjobs]. *)
Definition jobs0 : list job_t :=
  initjobs (replicate MAXJOBS (Job 0 0 0 EmptyString)).

(** First loop of [freejid]: [taken[jobs[i].jid] = 1] for every entry
    with a non-zero jid.  [taken] has [MAXJOBS + 1] cells; a store
    outside it is undefined behaviour in C and is [None] here. *)
Fixpoint mark_taken (jobs : list job_t) (taken : list Z) : option (list Z) :=
  match jobs with
  | [] => Some taken
  | j :: rest =>
      if jid j =? 0 then mark_taken rest taken
      else if (0 <=? jid j) && (jid j <=? Z.of_nat MAXJOBS)
           then mark_taken rest (<[Z.to_nat (jid j) := 1]> taken)
           else None
  end.

(** Second loop of [freejid]: the first [i] of the given range with
    [!taken[i]], or 0. *)
Fixpoint first_untaken (taken : list Z) (range : list nat) : Z :=
  match range with
  | [] => 0
  | i :: rest =>
      match taken !! i with
      | Some 0 => Z.of_nat i
      | _ => first_untaken taken rest
      end
  end.

(** freejid - Returns smallest free job ID *)
Definition freejid (jobs : list job_t) : option Z :=
  match mark_taken jobs (replicate (S MAXJOBS) 0) with
  | Some taken => Some (first_untaken taken (seq 1 MAXJOBS))
  | None => None
  end.

(** Index of the first entry satisfying [P]: the shape of every
    [for (i = 0; i < MAXJOBS; i++) if (P(jobs[i])) ...] scan. *)
Definition scan (P : job_t → Prop) `{∀ j, Decision (P j)}
    (jobs : list job_t) : option nat :=
  fst <$> list_find P jobs.

(** Result of [addjob]: the table, the returned int and what was
    printed. *)
Record added := Added {
  add_jobs : list job_t;
  add_ret : Z;
  add_out : list string
}.

(** addjob - Add a job to the job list *)
Definition addjob (verbose : Z) (jobs : list job_t)
    (p st : Z) (cmd : string) : option added :=
  if p <? 1 then Some (Added jobs 0 [])
  else
    match freejid jobs with
    | None => None
    | Some free =>
        if free =? 0
        then Some (Added jobs 0 [cat ["Tried to create too many jobs"; NL]])
        else
          match scan (λ j, pid j = 0) jobs with
          | Some i =>
              Some (Added (<[i := Job p free st cmd]> jobs) 1
                      (if verbose =? 0 then []
                       else [cat ["Added job ["; dec free; "] "; dec p; " ";
                                  cmd; NL]]))
          | None => Some (Added jobs 0 [])
          end
    end.

(** deletejob - Delete a job whose PID=pid from the job list *)
Definition deletejob (jobs : list job_t) (p : Z) : list job_t * Z :=
  if p <? 1 then (jobs, 0)
  else
    match scan (λ j, pid j = p) jobs with
    | Some i => (alter clearjob i jobs, 1)
    | None => (jobs, 0)
    end.

(** fgpid - Return PID of current foreground job, 0 if no such job *)
Definition fgpid (jobs : list job_t) : Z :=
  match list_find (λ j, state j = FG) jobs with
  | Some (_, j) => pid j
  | None => 0
  end.

(** getjobpid  - Find a job (by PID) on the job list *)
Definition getjobpid (jobs : list job_t) (p : Z) : option nat :=
  if p <? 1 then None else scan (λ j, pid j = p) jobs.

(** getjobjid  - Find a job (by JID) on the job list *)
Definition getjobjid (jobs : list job_t) (j : Z) : option nat :=
  if j <? 1 then None else scan (λ e, jid e = j) jobs.

(** pid2jid - Map process ID to job ID *)
Definition pid2jid (jobs : list job_t) (p : Z) : Z :=
  if p <? 1 then 0
  else
    match list_find (λ j, pid j = p) jobs with
    | Some (_, j) => jid j
    | None => 0
    end.

(** ** The shell process: globals, effects and outcomes *)

Inductive stream := Stdout | Stderr.

(** What the shell does to the outside world, in program order. *)
Inductive event :=
  | Print (to : stream) (text : string)  (* printf / fprintf *)
  | Perror (msg : string)                (* perror(msg) *)
  | Kill (target sig : Z)                (* kill(target, sig) *)
  | Fork (ret : Z)                       (* fork() returned ret *)
  | Reap (ret : Z)      (* waitpid(-1, &status, WNOHANG | WUNTRACED) = ret *)
  | Confirm (p : Z).    (* waitpid(p, NULL, WNOHANG) *)

(** The global variables, the SIGCHLD bit of the signal mask, and the
    log. *)
Record shell := Shell {
  jobs : list job_t;
  child_finished : Z;
  verbose : Z;
  ready : Z;
  sigchld_blocked : bool;
  log : list event
}.

Definition shell0 : shell := Shell jobs0 0 0 0 false [].

Definition emit (e : event) (s : shell) : shell :=
  Shell (jobs s) (child_finished s) (verbose s) (ready s) (sigchld_blocked s)
        (log s ++ [e]).

Definition emits (es : list event) (s : shell) : shell :=
  Shell (jobs s) (child_finished s) (verbose s) (ready s) (sigchld_blocked s)
        (log s ++ es).

Definition set_jobs (t : list job_t) (s : shell) : shell :=
  Shell t (child_finished s) (verbose s) (ready s) (sigchld_blocked s) (log s).

Definition set_child_finished (v : Z) (s : shell) : shell :=
  Shell (jobs s) v (verbose s) (ready s) (sigchld_blocked s) (log s).

Definition set_ready (v : Z) (s : shell) : shell :=
  Shell (jobs s) (child_finished s) (verbose s) v (sigchld_blocked s) (log s).

Definition set_blocked (b : bool) (s : shell) : shell :=
  Shell (jobs s) (child_finished s) (verbose s) (ready s) b (log s).

(** Ways in which a call does not come back to its caller. *)
Inductive halt :=
  | Exit (code : Z)  (* exit(code) *)
  | Segv             (* a NULL pointer was dereferenced *)
  | Asleep           (* still inside sigsuspend when no signal is left *)
  | Child            (* fork returned 0: the rest runs in the child *)
  | Undefined.       (* undefined behaviour (out-of-bounds access) *)

Inductive outcome (A : Type) :=
  | Ret (a : A) (s : shell)
  | Halt (h : halt) (s : shell).
Arguments Ret {A} a s.
Arguments Halt {A} h s.

Definition M (A : Type) : Type := shell → outcome A.

Definition ret {A} (a : A) : M A := λ s, Ret a s.

Definition bind {A B} (m : M A) (k : A → M B) : M B :=
  λ s, match m s with
       | Ret a s' => k a s'
       | Halt h s' => Halt h s'
       end.

Definition act (f : shell → shell) : M unit := λ s, Ret tt (f s).

Definition stop {A} (h : halt) : M A := λ s, Halt h s.

Notation "'let!' x ':=' m 'in' k" := (bind m (λ x, k))
  (at level 10, x name, m at level 100, k at level 200).
Notation "m >> k" := (bind m (λ _, k))
  (at level 61, left associativity).

Definition print (to : stream) (pieces : list string) : M unit :=
  act (emit (Print to (cat pieces))).

(** listjobs - Print the job list *)
Fixpoint listjobs_from (i : Z) (t : list job_t) : list event :=
  match t with
  | [] => []
  | j :: rest =>
      (if pid j =? 0 then []
       else [Print Stdout (cat ["["; dec (jid j); "] ("; dec (pid j); ") "]);
             Print Stdout
               (if state j =? BG then "Running "
                else if state j =? FG then "Foreground "
                else if state j =? ST then "Stopped "
                else cat ["listjobs: Internal error: job["; dec i;
                          "].state="; dec (state j); " "]);
             Print Stdout (cmdline j)])
      ++ listjobs_from (i + 1) rest
  end.

Definition listjobs : M unit := λ s, Ret tt (emits (listjobs_from 0 (jobs s)) s).

(** ** Signal handlers *)

(** The three shapes of a status reported with WUNTRACED and without
    WCONTINUED: WIFEXITED, WIFSIGNALED, WIFSTOPPED. *)
Inductive wstatus :=
  | Exited (code : Z)
  | Signaled (sig : Z)   (* WTERMSIG *)
  | Stopped (sig : Z).   (* WSTOPSIG *)

(** One answer of [waitpid(-1, &status, WNOHANG | WUNTRACED)]. *)
Record waitret := Wait {
  w_result : Z;
  w_status : wstatus;
  w_errno : Z
}.

(** sigchld_handler.  The argument lists the answers of the successive
    waitpid calls; when it runs out, waitpid answers 0 (no further child
    has changed state).  The answers not consumed are returned. *)
Fixpoint sigchld_handler (w : list waitret) (s : shell)
    : outcome (list waitret) :=
  match w with
  | [] => Ret [] (emit (Reap 0) s)
  | r :: rest =>
      let result := w_result r in
      let s := emit (Reap result) s in
      if 0 <? result then
        match w_status r with
        | Stopped sig =>
            match getjobpid (jobs s) result with
            | None => Halt Segv s
            | Some targetjob =>
                let s := set_jobs (alter (set_state ST) targetjob (jobs s)) s in
                let s := emit (Print Stdout
                           (cat ["Job ["; dec (pid2jid (jobs s) result); "] (";
                                 dec result; ") stopped by signal "; dec sig;
                                 NL])) s in
                Ret rest (set_child_finished 1 s)
            end
        | Signaled sig =>
            let s := emit (Print Stdout
                       (cat ["Job ["; dec (pid2jid (jobs s) result); "] (";
                             dec result; ") terminated by signal "; dec sig;
                             NL])) s in
            let s := set_child_finished 1 s in
            sigchld_handler rest (set_jobs (fst (deletejob (jobs s) result)) s)
        | Exited _ =>
            let s := set_child_finished 1 s in
            sigchld_handler rest (set_jobs (fst (deletejob (jobs s) result)) s)
        end
      else if (result =? -1) && negb (w_errno r =? 10) then
        Ret rest (emit (Print Stderr
                    (cat ["The exorcism failed. Value of errno: ";
                          dec (w_errno r); NL])) s)
      else Ret rest s
  end.

(** sigint_handler; [kill_ret] and [errno] are what [kill] answers. *)
Definition sigint_handler (sig kill_ret errno : Z) : M unit := λ s,
  let foregroundPID := fgpid (jobs s) in
  if foregroundPID =? 0 then Ret tt s
  else
    let s := emit (Kill foregroundPID sig) s in
    if kill_ret =? -1 then
      Ret tt (emit (Print Stderr
                (cat ["Error killing process with SIGINT: "; dec errno; NL])) s)
    else Ret tt s.

(** sigtstp_handler *)
Definition sigtstp_handler (sig kill_ret errno : Z) : M unit := λ s,
  let foregroundPID := fgpid (jobs s) in
  if foregroundPID =? 0 then Ret tt s
  else
    let s := emit (Kill foregroundPID sig) s in
    if kill_ret =? -1 then
      Ret tt (emit (Print Stderr
                (cat ["Error suspending process with SIGSTP: "; dec errno; NL])) s)
    else Ret tt s.

(** sigusr1_handler - child is ready *)
Definition sigusr1_handler (sig : Z) : M unit :=
  print Stdout ["In signal handler: sigusr1"; NL] >> act (set_ready 1).

(** sigquit_handler *)
Definition sigquit_handler {A} (sig : Z) : M A :=
  print Stdout ["Terminating after receipt of SIGQUIT signal"; NL] >>
  stop (Exit 1).

(** A signal arriving at the shell, with the answers the system calls of
    its handler will get. *)
Inductive delivery :=
  | OnChld (w : list waitret)
  | OnInt (kill_ret errno : Z)
  | OnTstp (kill_ret errno : Z)
  | OnUsr1
  | OnQuit.

(** Running the handler installed by [Signal] in [main]. *)
Definition deliver (d : delivery) : M unit :=
  match d with
  | OnChld w => sigchld_handler w >> ret tt
  | OnInt k e => sigint_handler SIGINT k e
  | OnTstp k e => sigtstp_handler SIGTSTP k e
  | OnUsr1 => sigusr1_handler SIGUSR1
  | OnQuit => sigquit_handler SIGQUIT
  end.

(** ** The foreground waiter *)

(** waitfg.  [arrivals] are the signals that arrive while the shell is
    suspended, in order: each [sigsuspend(&myset)] (empty mask, so
    SIGCHLD is deliverable whatever the process mask says) returns after
    the handler of the next arrival has run.  With no arrival left the
    shell stays asleep. *)
Fixpoint waitfg (p : Z) (arrivals : list delivery) (s : shell)
    : outcome (list delivery) :=
  if child_finished s =? 0 then
    match arrivals with
    | [] => Halt Asleep s
    | d :: rest =>
        match deliver d s with
        | Ret _ s' => waitfg p rest s'
        | Halt h s' => Halt h s'
        end
    end
  else Ret arrivals (emit (Confirm p) s).

(** ** The [fg] and [bg] builtins *)

(** do_bgfg - Execute the builtin bg and fg commands.  [argv] is the
    NULL-terminated argument vector; [kill_ret] is the answer of
    [kill]; [arrivals] feeds [waitfg]. *)
Definition do_bgfg (argv : list string) (kill_ret : Z)
    (arrivals : list delivery) : M (list delivery) := λ s,
  match argv with
  | [] => Halt Undefined s
  | [cmd] =>
      Ret arrivals
        (emit (Print Stdout
           (cat [cmd; " command requires PID or %jobid argument"; NL])) s)
  | cmd :: arg :: _ =>
      let job :=
        match arg with
        | String "%"%char rest =>
            let jid := atoi rest in
            match getjobjid (jobs s) jid with
            | Some i => inl i
            | None => inr (cat ["%"; dec jid; ": No such job"; NL])
            end
        | _ =>
            let pid := atoi arg in
            match getjobpid (jobs s) pid with
            | Some i => inl i
            | None => inr (cat ["("; dec pid; "): No such process"; NL])
            end
        end in
      match job with
      | inr msg => Ret arrivals (emit (Print Stdout msg) s)
      | inl i =>
          match jobs s !! i with
          | None => Halt Undefined s
          | Some j =>
              let s := emit (Kill (- pid j) SIGCONT) s in
              let s := if kill_ret <? 0
                       then emit (Perror "kill (SIGCONT) error") s else s in
              if String.eqb cmd "fg" then
                let s := set_jobs (alter (set_state FG) i (jobs s)) s in
                waitfg (pid j) arrivals s
              else
                let s := emit (Print Stdout
                           (cat ["["; dec (jid j); "] ("; dec (pid j); ") ";
                                 cmdline j])) s in
                Ret arrivals (set_jobs (alter (set_state BG) i (jobs s)) s)
          end
      end
  end.

(** builtin_cmd - If the user has typed a built-in command then execute
    it immediately.  Returns the C return value and the arrivals left. *)
Definition builtin_cmd (argv : list string) (kill_ret : Z)
    (arrivals : list delivery) : M (Z * list delivery) :=
  match argv with
  | [] => stop Undefined
  | cmd :: _ =>
      if String.eqb cmd "quit" then sigquit_handler SIGQUIT
      else if String.eqb cmd "fg" then
        let! rest := do_bgfg argv kill_ret arrivals in ret (1, rest)
      else if String.eqb cmd "bg" then
        let! rest := do_bgfg argv kill_ret arrivals in ret (1, rest)
      else if String.eqb cmd "jobs" then listjobs >> ret (1, arrivals)
      else ret (0, arrivals)
  end.

(** ** The spawn path *)

(** The loop of [eval] over [argv]: the first ["&"] sets [bg] and cuts
    the vector there. *)
Fixpoint cut_at_amp (argv : list string) : Z * list string :=
  match argv with
  | [] => (0, [])
  | a :: rest =>
      if String.eqb a "&" then (1, [])
      else let (bg, argv') := cut_at_amp rest in (bg, a :: argv')
  end.

(** The handlers of several signals, one after the other. *)
Fixpoint delivers (ds : list delivery) : M unit :=
  match ds with
  | [] => ret tt
  | d :: ds' => deliver d >> delivers ds'
  end.

(** What the operating system answers during one call of [eval].
    [at_unblock] lists the signals whose handlers run as
    [sigprocmask(SIG_UNBLOCK, ...)] returns, before the next statement
    of [eval]: a SIGCHLD that was held pending while SIGCHLD was
    blocked, and whatever else arrives just then. *)
Record os := Os {
  block_ret : Z;      (* sigprocmask(SIG_BLOCK, ...) *)
  fork_ret : Z;       (* fork() *)
  unblock_ret : Z;    (* sigprocmask(SIG_UNBLOCK, ...) *)
  kill_ret : Z;       (* kill(...) in do_bgfg *)
  at_unblock : list delivery;  (* signals handled at the unblock *)
  arrivals : list delivery     (* signals arriving during sigsuspend *)
}.

(** The answers when no signal is handled at the unblock. *)
Definition OS (b f u k : Z) (ds : list delivery) : os := Os b f u k [] ds.

(** eval - Evaluate the command line that the user has just typed in.
    [parsed] is the vector filled in by [parseline].  In the process
    where [fork] returns 0 the code goes on to [execvp] or [exit] and
    never reaches the parent's part: that is [Halt Child].  Once SIGCHLD
    is unblocked again the handlers of [at_unblock o] run, before the
    waiter is called or the background job is announced. *)
Definition eval (cmdline : string) (parsed : list string) (o : os)
    : M (list delivery) := λ s,
  let (bg, argv) := cut_at_amp parsed in
  match argv with
  | [] => Ret (arrivals o) s
  | _ :: _ =>
      match builtin_cmd argv (kill_ret o) (arrivals o) s with
      | Halt h s => Halt h s
      | Ret (b, rest) s =>
          if negb (b =? 0) then Ret rest s
          else if block_ret o <? 0 then
            Ret rest (emit (Print Stderr (cat ["sigprocmask error"; NL])) s)
          else
            let s := set_blocked true s in
            let s := set_child_finished 0 s in
            let pid := fork_ret o in
            let s := emit (Fork pid) s in
            if pid <? 0 then
              Ret rest (emit (Print Stderr (cat ["fork error"; NL])) s)
            else if pid =? 0 then Halt Child s
            else if bg =? 0 then
              match addjob (verbose s) (jobs s) pid FG cmdline with
              | None => Halt Undefined s
              | Some a =>
                  let s := emits (map (Print Stdout) (add_out a)) s in
                  let s := set_jobs (add_jobs a) s in
                  if add_ret a =? 0 then
                    Ret rest
                      (emit (Print Stderr (cat ["Failed to add job"; NL])) s)
                  else if unblock_ret o <? 0 then
                    Ret rest
                      (emit (Print Stderr (cat ["sigprocmask error"; NL])) s)
                  else
                    let s := set_blocked false s in
                    match delivers (at_unblock o) s with
                    | Halt h s => Halt h s
                    | Ret _ s => waitfg pid rest s
                    end
              end
            else
              match addjob (verbose s) (jobs s) pid BG cmdline with
              | None => Halt Undefined s
              | Some a =>
                  let s := emits (map (Print Stdout) (add_out a)) s in
                  let s := set_jobs (add_jobs a) s in
                  if add_ret a =? 0 then
                    Ret rest
                      (emit (Print Stderr (cat ["Failed to add job"; NL])) s)
                  else if unblock_ret o <? 0 then
                    Ret rest (emit (Print Stderr "sigprocmask error") s)
                  else
                    let s := set_blocked false s in
                    match delivers (at_unblock o) s with
                    | Halt h s => Halt h s
                    | Ret _ s =>
                        Ret rest
                          (emit (Print Stdout
                             (cat ["["; dec (pid2jid (jobs s) pid); "] (";
                                   dec pid; ") "; cmdline])) s)
                    end
              end
      end
  end.

(** ** The read/eval loop *)

(** What happens to the shell between two prompts: a command line is
    read and evaluated, or a signal arrives while the shell sits in
    [fgets]. *)
Inductive input :=
  | Line (cmdline : string) (parsed : list string) (o : os)
  | Async (d : delivery).

(** SIGCHLD is held back while it is in the process mask. *)
Definition deliverable (d : delivery) (s : shell) : bool :=
  match d with
  | OnChld _ => negb (sigchld_blocked s)
  | _ => true
  end.

(** The loop of [main] (run with [-p]: no prompt is printed).  The
    inputs are a schedule: they say where each handler runs.  A SIGCHLD
    that arrives while SIGCHLD is blocked runs no handler at that point:
    the kernel holds it back, and the run of its handler is listed where
    the signal is released, in [at_unblock] of a later line or first in
    the [arrivals] of its [sigsuspend]. *)
Fixpoint run (ins : list input) (s : shell) : outcome unit :=
  match ins with
  | [] => Ret tt s
  | Line c p o :: rest =>
      match eval c p o s with
      | Ret _ s' => run rest s'
      | Halt h s' => Halt h s'
      end
  | Async d :: rest =>
      if deliverable d s then
        match deliver d s with
        | Ret _ s' => run rest s'
        | Halt h s' => Halt h s'
        end
      else run rest s
  end.

(** ** The waiter against asynchronous delivery, step by step

    [waitfg] above lets signals arrive only inside [sigsuspend].  The
    machine below has one step per statement of [waitfg] and lets a
    deliverable signal run its handler between any two of them. *)

Inductive point :=
  | AtTest      (* about to evaluate [!child_finished] *)
  | AtSuspend   (* the test was true; about to call sigsuspend *)
  | InSuspend   (* suspended inside sigsuspend *)
  | AtConfirm   (* the test was false; about to call waitpid and break *)
  | Returned.   (* waitfg has returned *)

Record config := Config {
  at_point : point;
  sh : shell;
  coming : list delivery   (* the signals still to arrive, in order *)
}.

Definition awake (pt : point) : bool :=
  match pt with
  | AtTest | AtSuspend | AtConfirm => true
  | InSuspend | Returned => false
  end.

Inductive wstep (p : Z) : config → config → Prop :=
  | step_test_zero s ds :
      child_finished s = 0 →
      wstep p (Config AtTest s ds) (Config AtSuspend s ds)
  | step_test_nonzero s ds :
      child_finished s ≠ 0 →
      wstep p (Config AtTest s ds) (Config AtConfirm s ds)
  | step_suspend s ds :
      wstep p (Config AtSuspend s ds) (Config InSuspend s ds)
  | step_confirm s ds :
      wstep p (Config AtConfirm s ds) (Config Returned (emit (Confirm p) s) ds)
  | step_signal_awake pt s d ds s' :
      awake pt = true →
      deliverable d s = true →
      deliver d s = Ret tt s' →
      wstep p (Config pt s (d :: ds)) (Config pt s' ds)
  | step_signal_suspended s d ds s' :
      deliver d s = Ret tt s' →
      wstep p (Config InSuspend s (d :: ds)) (Config AtTest s' ds).

Definition wsteps (p : Z) : config → config → Prop := rtc (wstep p).

(** ** Vocabulary of the job-table properties *)

(** A slot holds an active job when its pid is set. *)
Definition active (j : job_t) : Prop := pid j ≠ 0.

(** [k] is the jid of some active job of the table. *)
Definition jid_in_use (t : list job_t) (k : Z) : Prop :=
  ∃ j, j ∈ t ∧ active j ∧ jid j = k.

(** [k] is the smallest integer of [1, MAXJOBS] no active job uses. *)
Definition smallest_free_jid (t : list job_t) (k : Z) : Prop :=
  1 ≤ k ≤ Z.of_nat MAXJOBS ∧ ¬ jid_in_use t k ∧
  ∀ k', 1 ≤ k' < k → jid_in_use t k'.

(** No jid of [1, MAXJOBS] is free. *)
Definition table_full (t : list job_t) : Prop :=
  ∀ k, 1 ≤ k ≤ Z.of_nat MAXJOBS → jid_in_use t k.

(** The operations on the table. *)
Inductive table_op :=
  | Add (p st : Z) (cmd : string)
  | Remove (p : Z).

Definition apply_op (verbose : Z) (t : list job_t) (op : table_op)
    : option (list job_t) :=
  match op with
  | Add p st cmd => add_jobs <$> addjob verbose t p st cmd
  | Remove p => Some (fst (deletejob t p))
  end.

Fixpoint apply_ops (verbose : Z) (t : list job_t) (ops : list table_op)
    : option (list job_t) :=
  match ops with
  | [] => Some t
  | op :: ops' =>
      match apply_op verbose t op with
      | Some t' => apply_ops verbose t' ops'
      | None => None
      end
  end.

(** Shape of every table the program builds: [MAXJOBS] slots, a free
    slot has pid and jid 0, an active one has its jid in
    [1, MAXJOBS]. *)
Definition slot_ok (j : job_t) : Prop :=
  (pid j = 0 ∧ jid j = 0) ∨ (pid j ≠ 0 ∧ 1 ≤ jid j ≤ Z.of_nat MAXJOBS).

Definition table_ok (t : list job_t) : Prop :=
  length t = MAXJOBS ∧ Forall slot_ok t.

(** The jobs of the table that are in the foreground state. *)
Definition foreground_jobs (t : list job_t) : list job_t :=
  filter (λ j, state j = FG) t.

(** Invariants of the spec's data model: jids, and pids, are unique among
    the active jobs. *)
Definition jids_unique (t : list job_t) : Prop :=
  ∀ i i' j j', t !! i = Some j → t !! i' = Some j' →
    active j → jid j = jid j' → i = i'.

Definition pids_unique (t : list job_t) : Prop :=
  ∀ i i' j j', t !! i = Some j → t !! i' = Some j' →
    active j → pid j = pid j' → i = i'.

(** ** The messages of the program, named *)

Definition full_msg : string := cat ["Tried to create too many jobs"; NL].

Definition added_msg (v free p : Z) (cmd : string) : list string :=
  if v =? 0 then []
  else [cat ["Added job ["; dec free; "] "; dec p; " "; cmd; NL]].

Definition stopped_msg (t : list job_t) (p sig : Z) : string :=
  cat ["Job ["; dec (pid2jid t p); "] ("; dec p; ") stopped by signal ";
       dec sig; NL].

Definition terminated_msg (t : list job_t) (p sig : Z) : string :=
  cat ["Job ["; dec (pid2jid t p); "] ("; dec p; ") terminated by signal ";
       dec sig; NL].

Definition exorcism_msg (errno : Z) : string :=
  cat ["The exorcism failed. Value of errno: "; dec errno; NL].

Definition no_such_job_msg (j : Z) : string :=
  cat ["%"; dec j; ": No such job"; NL].

(** ** Concrete tables and sessions used below *)

(** Three jobs are added and the second one is removed. *)
Definition recycle_ops : list table_op :=
  [Add 100 BG "a"; Add 101 BG "b"; Add 102 FG "c"; Remove 101].

Definition recycle_table : list job_t :=
  default [] (apply_ops 0 jobs0 recycle_ops).

Definition recycle_added : added :=
  default (Added [] 0 []) (addjob 0 recycle_table 103 BG "d").

(** Sixteen active jobs with jids 1 to 16. *)
Definition full_table : list job_t :=
  (λ n, Job (100 + Z.of_nat n) (Z.of_nat n) BG "sleep 100 &") <$>
  seq 1 MAXJOBS.

(** A foreground command whose child gets pid [p]; [ds] arrive while the
    shell waits for it. *)
Definition fg_line (text : string) (argv : list string) (p : Z)
    (ds : list delivery) : input :=
  Line (cat [text; NL]) argv (OS 0 p 0 0 ds).

(** A background command whose child gets pid [p]. *)
Definition bg_line (text : string) (argv : list string) (p : Z) : input :=
  Line (cat [text; " &"; NL]) (argv ++ ["&"]) (OS 0 p 0 0 []).

(** A builtin command; [ds] arrive if it waits. *)
Definition builtin_line (text : string) (argv : list string)
    (ds : list delivery) : input :=
  Line (cat [text; NL]) argv (OS 0 0 0 0 ds).

(** ctrl-z typed while [p] runs in the foreground: SIGTSTP reaches the
    shell, its handler signals the child, and the stop of the child is
    reported with a SIGCHLD. *)
Definition ctrl_z (p : Z) : list delivery :=
  [OnTstp 0 0; OnChld [Wait p (Stopped SIGTSTP) 0]].

Definition final {A} (o : outcome A) : shell :=
  match o with Ret _ s => s | Halt _ s => s end.

(** The shell inside [waitfg] after [sleep 100] was started in the
    foreground as pid 100. *)
Definition fg_waiting : shell :=
  Shell (<[0%nat := Job 100 1 FG (cat ["sleep 100"; NL])]> jobs0) 0 0 0 false
        [Fork 100].

(** [sleep 100] is started in the foreground and stopped with ctrl-z. *)
Definition stop_session : list input :=
  [fg_line "sleep 100" ["sleep"; "100"] 100 (ctrl_z 100)].

(** Two foreground jobs are stopped in turn, then each is resumed with
    [fg]; no signal arrives during either [fg]. *)
Definition two_foreground : list input :=
  [fg_line "sleep 100" ["sleep"; "100"] 100 (ctrl_z 100);
   fg_line "sleep 200" ["sleep"; "200"] 101 (ctrl_z 101);
   builtin_line "fg %1" ["fg"; "%1"] [];
   builtin_line "fg %2" ["fg"; "%2"] []].

(** Sixteen background jobs fill the table; a seventeenth command is
    forked as pid 117. *)
Definition sixteen_background : list input :=
  (λ n, bg_line "sleep 100" ["sleep"; "100"] (Z.of_nat n)) <$>
  seq 101 MAXJOBS.

Definition seventeenth : input :=
  Line (cat ["cat &"; NL]) ["cat"; "&"] (OS 0 117 0 0 []).

Definition table_overflow : list input := sixteen_background ++ [seventeenth].

(** The same with the seventeenth command, [cat], typed in the
    foreground. *)
Definition foreground_overflow : list input :=
  sixteen_background ++ [fg_line "cat" ["cat"] 117 []].

(** The only child, pid 100, exits: one SIGCHLD, whose handler reaps it
    and is then told that no child is left (ECHILD). *)
Definition child_exits : list delivery :=
  [OnChld [Wait 100 (Exited 0) 0; Wait (-1) (Exited 0) 10]].

Definition race_start : config := Config AtTest fg_waiting child_exits.

Definition after_exit : shell :=
  Shell jobs0 1 0 0 false [Fork 100; Reap 100; Reap (-1)].

(** ** Command-line tokenization

    A C string is the [string] of its characters before the terminating
    NUL.  A pointer into the buffer is the text from that position on:
    [strchr] returns the text before the character found, which becomes
    the argument once the NUL is stored at [delim], and the text after it,
    where [buf = delim + 1] points. *)

Definition MAXLINE : nat := 1024.
Definition MAXARGS : nat := 128.

(** [buf[strlen(buf) - 1] = ' '], for a non-empty [buf]. *)
Fixpoint replace_last (s : string) : string :=
  match s with
  | EmptyString => EmptyString
  | String c EmptyString => " "
  | String c s' => String c (replace_last s')
  end.

(** The loop that moves [buf] over spaces ([buf++] while it points at
    one). *)
Fixpoint skip_blanks (buf : string) : string :=
  match buf with
  | String " " buf' => skip_blanks buf'
  | _ => buf
  end.

(** [strchr(buf, c)] for a character [c] other than NUL. *)
Fixpoint strchr (c : ascii) (buf : string) : option (string * string) :=
  match buf with
  | EmptyString => None
  | String a buf' =>
      if Ascii.eqb a c then Some (EmptyString, buf')
      else
        match strchr c buf' with
        | Some (before, after) => Some (String a before, after)
        | None => None
        end
  end.

(** The end of the argument that starts at [buf]: after an opening
    quote the next quote, else the next space.  [None] is a NULL
    [delim]. *)
Definition next_delim (buf : string) : option (string * string) :=
  match buf with
  | String "'" buf' => strchr "'" buf'
  | _ => strchr " " buf
  end.

(** The loop of [parseline], entered at the skipping of spaces.  Every
    turn that stores an argument moves [buf] past its delimiter, so
    [fuel] above the length of [buf] is never used up. *)
Fixpoint tokens (fuel : nat) (buf : string) : list string :=
  match fuel with
  | O => []
  | S fuel' =>
      match next_delim (skip_blanks buf) with
      | Some (arg, rest) => arg :: tokens fuel' rest
      | None => []
      end
  end.

(** parseline - Parse the command line and build the argv array.  The
    result is the vector [argv]; the returned [argc] is its length.
    [None] is undefined behaviour: the [strcpy] into [array[MAXLINE]]
    overflows, the store at [strlen(buf) - 1] misses an empty line, or
    more than [MAXARGS - 1] arguments are stored into [argv] (with its
    closing NULL). *)
Definition parseline (cmdline : string) : option (list string) :=
  if (MAXLINE <=? String.length cmdline)%nat then None
  else
    match cmdline with
    | EmptyString => None
    | _ =>
        let argv :=
          tokens (S (String.length cmdline)) (replace_last cmdline) in
        if (MAXARGS <=? length argv)%nat then None else Some argv
    end.

(** [eval] from its first statement: the line is parsed, then evaluated. *)
Definition eval_cmdline (cmdline : string) (o : os) : M (list delivery) :=
  match parseline cmdline with
  | None => stop Undefined
  | Some parsed => eval cmdline parsed o
  end.

(** ** Vocabulary of the command-line properties *)

(** An argument as typed: bare, or between single quotes. *)
Inductive word :=
  | Plain (w : string)
  | Quoted (w : string).

Definition text (w : word) : string :=
  match w with Plain s => s | Quoted s => s end.

Definition show (w : word) : string :=
  match w with
  | Plain s => s
  | Quoted s => String "'" (String.append s "'")
  end.

Fixpoint has_char (c : ascii) (s : string) : bool :=
  match s with
  | EmptyString => false
  | String a s' => Ascii.eqb a c || has_char c s'
  end.

(** A bare argument is not empty, holds no space and does not start
    with a quote; a quoted one holds no quote. *)
Definition word_ok (w : word) : bool :=
  match w with
  | Plain EmptyString => false
  | Plain (String c s) =>
      negb (Ascii.eqb c "'") && negb (has_char " " (String c s))
  | Quoted s => negb (has_char "'" s)
  end.

(** The arguments separated by single spaces, and the newline. *)
Definition typed_line (ws : list word) : string :=
  String.append (String.concat " " (show <$> ws)) NL.

(** ** Vocabulary of the shell invariants *)

Definition valid_state (st : Z) : Prop := st = FG ∨ st = BG ∨ st = ST.

(** A free slot is exactly what [clearjob] leaves. *)
Definition slot_clean (j : job_t) : Prop :=
  pid j = 0 → j = Job 0 0 UNDEF EmptyString.

(** A slot of the running shell: cleared, or an active job with a
    positive pid, a jid of [1, MAXJOBS] and one of the three states. *)
Definition slot_wf (j : job_t) : Prop :=
  j = Job 0 0 UNDEF EmptyString ∨
  (1 ≤ pid j ∧ 1 ≤ jid j ≤ Z.of_nat MAXJOBS ∧ valid_state (state j)).

Definition shell_inv (t : list job_t) : Prop :=
  length t = MAXJOBS ∧ Forall slot_wf t ∧ jids_unique t.

(** The three prints of [listjobs] for one active job. *)
Definition job_lines (j : job_t) : list event :=
  [Print Stdout (cat ["["; dec (jid j); "] ("; dec (pid j); ") "]);
   Print Stdout (if state j =? BG then "Running "
                 else if state j =? FG then "Foreground " else "Stopped ");
   Print Stdout (cmdline j)].

(** A signal whose handler is one of the two keyboard handlers or the
    SIGUSR1 handler. *)
Definition quiet (d : delivery) : bool :=
  match d with
  | OnInt _ _ | OnTstp _ _ | OnUsr1 => true
  | OnChld _ | OnQuit => false
  end.

Definition is_builtin (cmd : string) : bool :=
  String.eqb cmd "quit" || String.eqb cmd "fg" || String.eqb cmd "bg" ||
  String.eqb cmd "jobs".

(** ** More vocabulary for the properties *)

Local Notation "s +++ t" := (String.append s t)
  (at level 60, right associativity).

(** The text of every argument followed by a space, then [tail]: the
    buffer of [parseline] once the newline has become a space. *)
Fixpoint spaced (l : list string) (tail : string) : string :=
  match l with
  | [] => tail
  | x :: l' => x +++ String " " (spaced l' tail)
  end.

(** A run of [n] spaces. *)
Fixpoint blanks (n : nat) : string :=
  match n with
  | O => EmptyString
  | S n' => String " " (blanks n')
  end.

(** An answer of waitpid for a child that exited or was killed. *)
Definition terminated (r : waitret) : Prop :=
  0 < w_result r ∧ ∀ sig, w_status r ≠ Stopped sig.

(** [arg] does not start with a percent sign. *)
Definition bare (arg : string) : Prop :=
  match arg with String "%" _ => False | _ => True end.

Definition usage_msg (cmd : string) : string :=
  cat [cmd; " command requires PID or %jobid argument"; NL].

Definition no_such_process_msg (p : Z) : string :=
  cat ["("; dec p; "): No such process"; NL].

Definition announce_msg (j : job_t) : string :=
  cat ["["; dec (jid j); "] ("; dec (pid j); ") "; cmdline j].

Definition quit_msg : string :=
  cat ["Terminating after receipt of SIGQUIT signal"; NL].

(** What a keyboard handler logs: its [kill] and, when [kill] answers
    -1, the report [what] with the value of errno. *)
Definition forward_events (what : string) (p sig kill_ret errno : Z)
    : list event :=
  Kill p sig ::
  (if kill_ret =? -1 then [Print Stderr (cat [what; dec errno; NL])] else []).

(** What [do_bgfg] logs for its [kill]. *)
Definition cont_events (pid kill_ret : Z) : list event :=
  Kill (- pid) SIGCONT ::
  (if kill_ret <? 0 then [Perror "kill (SIGCONT) error"] else []).

(** What the spawn path logs up to the registration of the job. *)
Definition spawn_events (v p k : Z) (cmd : string) : list event :=
  Fork p :: (Print Stdout <$> added_msg v k p cmd).


(** What the handler prints for a stopped child. *)
Definition stop_events (k p sig : Z) : list event :=
  [Print Stdout (cat ["Job ["; dec k; "] ("; dec p; ") stopped by signal ";
                      dec sig; NL])].

(** A session that leaves job 1 running in the background (pid 100) and
    job 2 stopped (pid 101), with the status flag set. *)
Definition demo_session : list input :=
  [bg_line "sleep 100" ["sleep"; "100"] 100;
   fg_line "sleep 200" ["sleep"; "200"] 101 (ctrl_z 101)].

Definition demo_state : shell := final (run demo_session shell0).

(** The shell after sixteen background jobs were started. *)
Definition crowded_state : shell := final (run sixteen_background shell0).

(** One step of the waiter's machine, justified by [rule]. *)
Ltac wstep_by rule := eapply rtc_l; [rule|].

(** * Properties *)

(** ** Sanity checks of the text helpers *)

Example atoi_examples :
  atoi "12" = 12 ∧ atoi " -7x" = -7 ∧ atoi "abc" = 0 ∧ atoi "" = 0.
Proof. repeat split. Qed.

(** Numbers outside the range of [int] are cut to 32 bits; outside the
    range of [long] they are first replaced by its bound. *)
Example atoi_out_of_range :
  atoi "2147483647" = 2147483647 ∧ atoi "2147483648" = -2147483648 ∧
  atoi "4294967297" = 1 ∧ atoi "-4294967295" = 1 ∧
  atoi "99999999999999999999" = -1 ∧ atoi "-99999999999999999999" = 0.
Proof. repeat split. Qed.

Lemma atoi_range s : - 2 ^ 31 ≤ atoi s < 2 ^ 31.
Proof.
  unfold atoi, to_int.
  pose proof (Z.mod_pos_bound (strtol s + 2 ^ 31) (2 ^ 32)). lia.
Qed.

Example dec_examples : dec 16 = "16" ∧ dec 0 = "0" ∧ dec (-3) = "-3".
Proof. repeat split. Qed.

Example freejid_jobs0 : freejid jobs0 = Some 1.
Proof. reflexivity. Qed.

(** ** The job table *)

Section JobTable.
Implicit Types (t : list job_t) (j : job_t) (k p : Z).

Lemma scan_Some (P : job_t → Prop) `{∀ j, Decision (P j)} t i :
  scan P t = Some i ↔
  ∃ j, t !! i = Some j ∧ P j ∧
       ∀ i' j', t !! i' = Some j' → (i' < i)%nat → ¬ P j'.
Proof.
  unfold scan. split.
  - intros Hs. destruct (list_find P t) as [[i' j]|] eqn:E; simplify_eq/=.
    apply list_find_Some in E. eauto.
  - intros (j & ? & ? & ?).
    assert (list_find P t = Some (i, j)) as -> by (apply list_find_Some; eauto).
    done.
Qed.

Lemma scan_None (P : job_t → Prop) `{∀ j, Decision (P j)} t :
  scan P t = None ↔ Forall (λ j, ¬ P j) t.
Proof.
  unfold scan. destruct (list_find P t) as [[i j]|] eqn:E; simpl.
  - split; [done|]. intros HF. apply list_find_Some in E as (Hi & HP & _).
    rewrite Forall_forall in HF. exfalso.
    eapply HF; [eapply list_elem_of_lookup_2|]; eauto.
  - split; [|done]. intros _. by apply list_find_None in E.
Qed.

Lemma lookup_alter_cases (f : job_t → job_t) t i n j :
  alter f i t !! n = Some j →
  (n = i ∧ ∃ j0, t !! i = Some j0 ∧ j = f j0) ∨ (n ≠ i ∧ t !! n = Some j).
Proof.
  destruct (decide (n = i)) as [->|Hne].
  - rewrite list_lookup_alter_eq. intros (j0 & ? & ?)%fmap_Some. eauto.
  - rewrite list_lookup_alter_ne by done. eauto.
Qed.

(** *** [freejid] *)

(** First loop: a cell stays 0 exactly when no entry carries its index
    as a non-zero jid. *)
Lemma mark_taken_spec t : ∀ taken,
  length taken = S MAXJOBS →
  Forall (λ j, 0 ≤ jid j ≤ Z.of_nat MAXJOBS) t →
  ∃ taken', mark_taken t taken = Some taken' ∧
    length taken' = S MAXJOBS ∧
    ∀ n, taken' !! n = Some 0 ↔
         taken !! n = Some 0 ∧ ∀ j, j ∈ t → jid j = 0 ∨ jid j ≠ Z.of_nat n.
Proof.
  induction t as [|j t IH]; intros taken Hlen Hr.
  - exists taken. split_and!; [done..|]. intros n. split; [|by intros [? _]].
    intros ?. split; [done|]. intros j Hj. by apply elem_of_nil in Hj.
  - apply Forall_cons in Hr as [Hj Hr]. simpl.
    destruct (jid j =? 0) eqn:E0.
    + apply Z.eqb_eq in E0.
      destruct (IH taken Hlen Hr) as (taken' & -> & ? & Hspec).
      exists taken'. split_and!; [done..|]. intros n. rewrite Hspec.
      split; intros [? Hall]; (split; [done|]).
      * intros j' Hin. apply elem_of_cons in Hin as [Heq|Hin]; [subst j'|]; auto.
      * intros j' ?. apply Hall. by right.
    + apply Z.eqb_neq in E0.
      assert ((0 <=? jid j) && (jid j <=? Z.of_nat MAXJOBS) = true) as ->.
      { apply andb_true_iff. split; apply Z.leb_le; lia. }
      destruct (IH (<[Z.to_nat (jid j) := 1]> taken))
        as (taken' & -> & ? & Hspec); [by rewrite length_insert|done|].
      exists taken'. split_and!; [done..|]. intros n. rewrite Hspec.
      assert (Z.to_nat (jid j) < length taken)%nat
        by (rewrite Hlen; unfold MAXJOBS in *; lia).
      destruct (decide (n = Z.to_nat (jid j))) as [Hn|Hn].
      * subst n. rewrite list_lookup_insert_eq by done.
        split; [by intros [[=] _]|].
        intros [_ Hall]. destruct (Hall j) as [?|?]; [by left|lia|lia].
      * rewrite list_lookup_insert_ne by done.
        split; intros [? Hall]; (split; [done|]).
        -- intros j' Hin.
           apply elem_of_cons in Hin as [Heq|Hin]; [subst j'; right; lia|auto].
        -- intros j' ?. apply Hall. by right.
Qed.

(** Second loop: the first clear cell of the range, or 0. *)
Lemma first_untaken_spec taken : ∀ n a,
  (1 ≤ a)%nat →
  (first_untaken taken (seq a n) = 0 ∧
   ∀ i, (a ≤ i < a + n)%nat → taken !! i ≠ Some 0) ∨
  (∃ i, first_untaken taken (seq a n) = Z.of_nat i ∧ (a ≤ i < a + n)%nat ∧
        taken !! i = Some 0 ∧
        ∀ i', (a ≤ i' < i)%nat → taken !! i' ≠ Some 0).
Proof.
  induction n as [|n IH]; intros a Ha; simpl.
  - left. split; [done|]. intros; lia.
  - destruct (decide (taken !! a = Some 0)) as [E|E].
    + rewrite E. right. exists a. split_and!; try done; try lia.
    + assert (match taken !! a with
              | Some 0 => Z.of_nat a
              | _ => first_untaken taken (seq (S a) n)
              end = first_untaken taken (seq (S a) n)) as ->.
      { destruct (taken !! a) as [[| |]|]; done. }
      destruct (IH (S a)) as [[-> Hno]|(i & -> & ? & ? & Hno)]; [lia|..].
      * left. split; [done|]. intros i ?.
        destruct (decide (i = a)) as [->|]; [done|apply Hno; lia].
      * right. exists i. split_and!; try done; try lia. intros i' ?.
        destruct (decide (i' = a)) as [->|]; [done|apply Hno; lia].
Qed.

Lemma slot_ok_range j : slot_ok j → 0 ≤ jid j ≤ Z.of_nat MAXJOBS.
Proof. unfold slot_ok, MAXJOBS. lia. Qed.

Lemma slot_ok_lookup t i j : Forall slot_ok t → t !! i = Some j → slot_ok j.
Proof. intros Hok Hi. eapply Forall_lookup_1; eauto. Qed.

Lemma jid_in_use_iff t k :
  Forall slot_ok t → 1 ≤ k → jid_in_use t k ↔ ∃ j, j ∈ t ∧ jid j = k.
Proof.
  intros Hok Hk. split.
  - intros (j & ? & ? & ?). eauto.
  - intros (j & Hj & ?). exists j. split_and!; [done| |done].
    rewrite Forall_forall in Hok.
    destruct (Hok j Hj) as [[? ?]|[? ?]]; [lia|done].
Qed.


Lemma marked_cell_in_use t (n : nat) :
  Forall slot_ok t → (1 ≤ n)%nat →
  ¬ (∀ j, j ∈ t → jid j = 0 ∨ jid j ≠ Z.of_nat n) →
  jid_in_use t (Z.of_nat n).
Proof.
  intros Hok Hn Hnot. apply jid_in_use_iff; [done|lia|].
  rewrite <- Forall_forall in Hnot.
  apply not_Forall_Exists in Hnot; [|intros j; apply _].
  apply Exists_exists in Hnot as (j & Hj & Hj').
  exists j. split; [done|]. simpl in Hj'. lia.
Qed.

(** [freejid] returns the smallest free jid, and 0 exactly when there is
    none. *)
Lemma freejid_spec t :
  Forall slot_ok t →
  ∃ f, freejid t = Some f ∧
       ((f = 0 ∧ table_full t) ∨ smallest_free_jid t f).
Proof.
  intros Hok. unfold freejid.
  destruct (mark_taken_spec t (replicate (S MAXJOBS) 0))
    as (taken & -> & _ & Hcell).
  { by rewrite length_replicate. }
  { eapply Forall_impl; [done|]. intros j. apply slot_ok_range. }
  assert (Hzero : ∀ n, (n < S MAXJOBS)%nat →
                       replicate (S MAXJOBS) 0 !! n = Some 0).
  { intros n ?. by apply lookup_replicate_2. }
  eexists. split; [done|].
  destruct (first_untaken_spec taken MAXJOBS 1)
    as [[-> Hno]|(i & -> & Hi & Hfree & Hno)]; [lia|left|right].
  - split; [done|]. intros k Hk.
    replace k with (Z.of_nat (Z.to_nat k)) by lia.
    apply marked_cell_in_use; [done|lia|]. intros Hall.
    apply (Hno (Z.to_nat k)); [unfold MAXJOBS in *; lia|].
    apply Hcell. split; [|done]. apply Hzero. lia.
  - split_and!; [lia|unfold MAXJOBS in *; lia| |].
    + rewrite jid_in_use_iff by (done || lia). intros (j & Hj & Hjid).
      apply Hcell in Hfree as [_ Hall]. destruct (Hall j Hj); lia.
    + intros k' Hk'. replace k' with (Z.of_nat (Z.to_nat k')) by lia.
      apply marked_cell_in_use; [done|lia|]. intros Hall.
      apply (Hno (Z.to_nat k')); [lia|].
      apply Hcell. split; [|done]. apply Hzero. unfold MAXJOBS in *. lia.
Qed.

Lemma smallest_free_jid_not_full t k : smallest_free_jid t k → ¬ table_full t.
Proof. intros (? & Hfree & _) Hfull. by apply Hfree, Hfull. Qed.

(** A table of [MAXJOBS] slots in which every jid of [1, MAXJOBS] is in
    use has one active job per slot. *)
Lemma table_full_ok t : length t = MAXJOBS → table_full t → table_ok t.
Proof.
  intros Hlen Hfull. split; [done|].
  set (ids := Z.of_nat <$> seq 1 MAXJOBS).
  set (act := filter active t).
  assert (Hsub : ids ⊆+ jid <$> act).
  { apply NoDup_submseteq.
    - apply NoDup_fmap; [apply _|apply NoDup_seq].
    - intros k (n & -> & Hn%elem_of_seq)%list_elem_of_fmap.
      destruct (Hfull (Z.of_nat n)) as (j & Hj & Hact & Hjid); [lia|].
      apply list_elem_of_fmap. exists j. split; [done|].
      by apply list_elem_of_filter. }
  assert (Hlenact : length act = length t).
  { apply submseteq_length in Hsub. pose proof (length_filter active t) as Hle.
    fold act in Hle. unfold ids in Hsub.
    rewrite !length_fmap, length_seq in Hsub. lia. }
  assert (Hperm : ids ≡ₚ jid <$> act).
  { apply submseteq_length_Permutation; [done|].
    unfold ids. rewrite !length_fmap, length_seq. lia. }
  assert (Hall : act = t).
  { unfold act in *. clear -Hlenact. induction t as [|j t IH]; [done|].
    rewrite filter_cons in *. destruct (decide (active j)); simpl in *.
    - f_equal. apply IH. lia.
    - pose proof (length_filter active t). lia. }
  rewrite Hall in Hperm. apply Forall_forall. intros j Hj. right.
  assert (jid j ∈ ids) as (n & -> & Hn%elem_of_seq)%list_elem_of_fmap.
  { rewrite Hperm. apply list_elem_of_fmap. eauto. }
  split; [|lia].
  rewrite <- Hall in Hj. by apply list_elem_of_filter in Hj as [? _].
Qed.

(** *** [addjob] and [deletejob] *)

(** The four ways out of [addjob]: the pid guard, the full table, the
    store into the first free slot, and the fall-through after the
    loop. *)
Lemma addjob_cases v t p st cmd :
  Forall slot_ok t →
  ∃ a, addjob v t p st cmd = Some a ∧
    ((p < 1 ∧ a = Added t 0 []) ∨
     (1 ≤ p ∧ table_full t ∧ a = Added t 0 [full_msg]) ∨
     (1 ≤ p ∧ ∃ k, smallest_free_jid t k ∧
        ((∃ i, scan (λ j, pid j = 0) t = Some i ∧
               a = Added (<[i := Job p k st cmd]> t) 1 (added_msg v k p cmd)) ∨
         (scan (λ j, pid j = 0) t = None ∧ a = Added t 0 [])))).
Proof.
  intros Hok. unfold addjob. destruct (p <? 1) eqn:Hp.
  { apply Z.ltb_lt in Hp. eauto. }
  apply Z.ltb_ge in Hp.
  destruct (freejid_spec t Hok) as (f & -> & [[-> Hfull]|Hfree]).
  { simpl. eauto 10. }
  assert ((f =? 0) = false) as -> by (apply Z.eqb_neq; destruct Hfree; lia).
  destruct (scan (λ j, pid j = 0) t) as [i|] eqn:Hscan; eauto 12.
Qed.

Lemma addjob_table_ok v t p st cmd a :
  table_ok t → addjob v t p st cmd = Some a → table_ok (add_jobs a).
Proof.
  intros [Hlen Hok] Ha.
  destruct (addjob_cases v t p st cmd Hok) as (a' & Ha' & Hcases).
  rewrite Ha in Ha'. injection Ha' as <-.
  destruct Hcases
    as [[_ ->]|[(_ & _ & ->)|(Hp & k & Hk & [(i & _ & ->)|[_ ->]])]];
    simpl; try done.
  split; [by rewrite length_insert|].
  apply Forall_insert; [done|]. right. simpl. destruct Hk. lia.
Qed.

Lemma deletejob_table_ok t p : table_ok t → table_ok (fst (deletejob t p)).
Proof.
  intros [Hlen Hok]. unfold deletejob.
  destruct (p <? 1); [done|].
  destruct (scan _ t) as [i|]; [|done]. simpl.
  split; [by rewrite length_alter|].
  apply Forall_alter; [done|]. intros j _ _. by left.
Qed.

Lemma jobs0_table_ok : table_ok jobs0.
Proof.
  split; [done|]. unfold jobs0. simpl.
  repeat (constructor; [by left|]). constructor.
Qed.

Lemma apply_ops_table_ok v ops : ∀ t t',
  table_ok t → apply_ops v t ops = Some t' → table_ok t'.
Proof.
  induction ops as [|op ops IH]; intros t t' Hok; simpl.
  - by intros [= <-].
  - destruct (apply_op v t op) as [t1|] eqn:Hop; [|done].
    apply IH. destruct op as [p st cmd|p]; simpl in Hop.
    + destruct (addjob v t p st cmd) as [a|] eqn:Ha; simplify_eq/=.
      by eapply addjob_table_ok.
    + simplify_eq. by apply deletejob_table_ok.
Qed.

(** No sequence of operations runs into the out-of-bounds store of
    [freejid]. *)
Lemma apply_ops_defined v ops : ∀ t,
  table_ok t → is_Some (apply_ops v t ops).
Proof.
  induction ops as [|op ops IH]; intros t Hok; simpl; [done|].
  destruct op as [p st cmd|p]; simpl.
  - destruct (addjob_cases v t p st cmd (proj2 Hok)) as (a & Ha & _).
    rewrite Ha. simpl. apply IH. by eapply addjob_table_ok.
  - apply IH. by apply deletejob_table_ok.
Qed.

(** C6: from the empty table, after any sequence of add and remove
    operations, a successful add stores the new job in a free slot with,
    as jid, the smallest integer of [1, MAXJOBS] that no active job
    uses. *)
Theorem addjob_assigns_smallest_free_jid v v' ops t p st cmd a :
  apply_ops v jobs0 ops = Some t →
  addjob v' t p st cmd = Some a →
  add_ret a = 1 →
  ∃ i k, smallest_free_jid t k ∧ pid <$> (t !! i) = Some 0 ∧
         add_jobs a = <[i := Job p k st cmd]> t.
Proof.
  intros Hreach Ha Hret.
  pose proof (apply_ops_table_ok _ _ _ _ jobs0_table_ok Hreach) as [_ Hok].
  destruct (addjob_cases v' t p st cmd Hok) as (a' & Ha' & Hcases).
  rewrite Ha in Ha'. injection Ha' as <-.
  destruct Hcases
    as [[_ ->]|[(_ & _ & ->)|(Hp & k & Hk & [(i & Hi & ->)|[_ ->]])]];
    simpl in Hret; try done.
  exists i, k. split_and!; [done| |done].
  apply scan_Some in Hi as (j & Hj & Hpid & _).
  rewrite Hj. simpl. by rewrite Hpid.
Qed.

(** Jids 1, 2, 3 are handed out, job 2 is removed, and the next add gets
    jid 2 again, in the slot that was freed. *)
Lemma addjob_assigns_smallest_free_jid_witness :
  apply_ops 0 jobs0 recycle_ops = Some recycle_table ∧
  add_jobs recycle_added = <[1%nat := Job 103 2 BG "d"]> recycle_table ∧
  ∃ i k, smallest_free_jid recycle_table k ∧
         pid <$> (recycle_table !! i) = Some 0 ∧
         add_jobs recycle_added = <[i := Job 103 k BG "d"]> recycle_table.
Proof.
  split; [reflexivity|]. split; [reflexivity|].
  apply (addjob_assigns_smallest_free_jid 0 0 recycle_ops recycle_table
           103 BG "d" recycle_added); reflexivity.
Defined.

Lemma full_table_full : table_full full_table.
Proof.
  intros k Hk. exists (Job (100 + k) k BG "sleep 100 &").
  split_and!; [|unfold active; simpl; lia|done].
  apply list_elem_of_fmap. exists (Z.to_nat k).
  split; [f_equal; lia|]. apply elem_of_seq. unfold MAXJOBS in *. lia.
Qed.

(** C8: on a table in which no jid of [1, MAXJOBS] is free, an add
    fails: it prints the table-full message, returns 0 and leaves the
    table as it is, so no entry is created and none is changed.  The pid
    is at least 1, as at both calls of [addjob], which [eval] makes in the
    parent with the pid that [fork] returned. *)
Theorem addjob_full_table v t p st cmd :
  length t = MAXJOBS → table_full t → 1 ≤ p →
  addjob v t p st cmd = Some (Added t 0 [full_msg]).
Proof.
  intros Hlen Hfull Hp1. destruct (table_full_ok t Hlen Hfull) as [_ Hok].
  destruct (addjob_cases v t p st cmd Hok)
    as (a & -> & [[Hp _]|[(_ & _ & ->)|(_ & k & Hk & _)]]).
  - lia.
  - done.
  - by destruct (smallest_free_jid_not_full t k).
Qed.

Lemma addjob_full_table_witness :
  length full_table = MAXJOBS ∧ 1 ≤ 117 ∧
  addjob 0 full_table 117 FG "cat" = Some (Added full_table 0 [full_msg]).
Proof.
  split; [reflexivity|]. split; [lia|].
  apply (addjob_full_table 0 full_table 117 FG "cat" eq_refl full_table_full).
  lia.
Defined.

(** *** Uniqueness of jids *)

Lemma addjob_jids_unique v t p st cmd a :
  table_ok t → jids_unique t → addjob v t p st cmd = Some a →
  jids_unique (add_jobs a).
Proof.
  intros [Hlen Hok] Huniq Ha.
  destruct (addjob_cases v t p st cmd Hok) as (a' & Ha' & Hcases).
  rewrite Ha in Ha'. injection Ha' as <-.
  destruct Hcases
    as [[_ ->]|[(_ & _ & ->)|(Hp & k & Hk & [(i & Hi & ->)|[_ ->]])]];
    simpl; try done.
  destruct Hk as (Hk & Hfree & _).
  assert (Hclash : ∀ n j, t !! n = Some j → jid j = k → False).
  { intros n j Hn Hj. apply Hfree, jid_in_use_iff; [done|lia|].
    exists j. split; [|done]. by eapply list_elem_of_lookup_2. }
  intros i1 i2 j1 j2 H1 H2 Hact Hjid.
  apply list_lookup_insert_Some in H1 as [(-> & <- & ?)|[? H1]];
    apply list_lookup_insert_Some in H2 as [(-> & <- & ?)|[? H2]];
    simpl in *; try done.
  - destruct (Hclash i2 j2); done.
  - destruct (Hclash i1 j1); done.
  - by eapply Huniq.
Qed.

Lemma deletejob_jids_unique t p :
  table_ok t → jids_unique t → jids_unique (fst (deletejob t p)).
Proof.
  intros [Hlen Hok] Huniq. unfold deletejob.
  destruct (p <? 1); [done|].
  destruct (scan _ t) as [i|]; [|done]. simpl.
  intros i1 i2 j1 j2 H1 H2 Hact Hjid.
  apply lookup_alter_cases in H1 as [(-> & j1' & H1 & ->)|[? H1]].
  { by destruct Hact. }
  apply lookup_alter_cases in H2 as [(-> & j2' & H2 & ->)|[? H2]].
  { simpl in Hjid. destruct (slot_ok_lookup t i1 j1 Hok H1) as [[? ?]|[? ?]];
      [by destruct Hact|lia]. }
  by eapply Huniq.
Qed.

Lemma jobs0_jids_unique : jids_unique jobs0.
Proof.
  intros i i' j j' Hi _ Hact _. exfalso. apply Hact.
  apply list_elem_of_lookup_2 in Hi. unfold jobs0, initjobs in Hi.
  apply list_elem_of_In, in_map_iff in Hi as (? & <- & _). done.
Qed.

Lemma apply_ops_jids_unique v ops : ∀ t t',
  table_ok t → jids_unique t → apply_ops v t ops = Some t' → jids_unique t'.
Proof.
  induction ops as [|op ops IH]; intros t t' Hok Huniq; simpl.
  - by intros [= <-].
  - destruct (apply_op v t op) as [t1|] eqn:Hop; [|done].
    destruct op as [p st cmd|p]; simpl in Hop.
    + destruct (addjob v t p st cmd) as [a|] eqn:Ha; simplify_eq/=.
      apply IH; [by eapply addjob_table_ok|by eapply addjob_jids_unique].
    + simplify_eq.
      apply IH; [by apply deletejob_table_ok|by apply deletejob_jids_unique].
Qed.

(** With unique jids, a table without a free slot has no free jid. *)
Lemma no_free_slot_full t :
  table_ok t → jids_unique t →
  Forall (λ j, ¬ pid j = 0) t → table_full t.
Proof.
  intros [Hlen Hok] Huniq Hall.
  set (ids := Z.of_nat <$> seq 1 MAXJOBS).
  assert (Hnd : NoDup (jid <$> t)).
  { apply NoDup_alt. intros i i' k.
    rewrite !list_lookup_fmap.
    intros (j & Hj & ->)%fmap_Some (j' & Hj' & Heq)%fmap_Some.
    eapply Huniq; [done..| |done].
    eapply Forall_lookup_1 in Hall; [|exact Hj]. done. }
  assert (Hsub : jid <$> t ⊆+ ids).
  { apply NoDup_submseteq; [done|].
    intros k (j & -> & Hj)%list_elem_of_fmap.
    rewrite Forall_forall in Hok, Hall.
    destruct (Hok j Hj) as [[? ?]|[? ?]]; [by destruct (Hall j Hj)|].
    apply list_elem_of_fmap. exists (Z.to_nat (jid j)).
    split; [lia|]. apply elem_of_seq. unfold MAXJOBS in *. lia. }
  assert (Hperm : jid <$> t ≡ₚ ids).
  { apply submseteq_length_Permutation; [done|].
    unfold ids. rewrite !length_fmap, length_seq. lia. }
  intros k Hk. apply jid_in_use_iff; [done|lia|].
  assert (k ∈ jid <$> t) as (j & -> & Hj)%list_elem_of_fmap; [|eauto].
  rewrite Hperm. apply list_elem_of_fmap. exists (Z.to_nat k).
  split; [lia|]. apply elem_of_seq. unfold MAXJOBS in *. lia.
Qed.

(** X2: on the tables built by add and remove, [addjob] succeeds
    exactly when the pid is at least 1 and some jid is free: the
    fall-through after its loop is never taken. *)
Lemma addjob_succeeds_iff v v' ops t p st cmd a :
  apply_ops v jobs0 ops = Some t →
  addjob v' t p st cmd = Some a →
  add_ret a = 1 ↔ 1 ≤ p ∧ ¬ table_full t.
Proof.
  intros Hreach Ha.
  pose proof (apply_ops_table_ok _ _ _ _ jobs0_table_ok Hreach) as Hok.
  pose proof (apply_ops_jids_unique _ _ _ _
                jobs0_table_ok jobs0_jids_unique Hreach) as Huniq.
  destruct (addjob_cases v' t p st cmd (proj2 Hok)) as (a' & Ha' & Hcases).
  rewrite Ha in Ha'. injection Ha' as <-.
  destruct Hcases
    as [[? ->]|[(? & ? & ->)|(Hp & k & Hk & [(i & Hi & ->)|[Hno ->]])]];
    simpl.
  - split; [done|lia].
  - split; [done|]. by intros [_ []].
  - split; [|done]. intros _. split; [done|].
    by eapply smallest_free_jid_not_full.
  - split; [done|]. intros [_ Hnf]. destruct Hnf.
    apply no_free_slot_full; [done..|]. by apply scan_None in Hno.
Qed.

(** *** Lookups *)


(** Removing a pid leaves no entry with that pid when pids are
    unique. *)
Lemma deletejob_removes t p :
  pids_unique t → getjobpid (fst (deletejob t p)) p = None.
Proof.
  intros Huniq. unfold getjobpid, deletejob.
  destruct (p <? 1) eqn:Hp; [done|]. apply Z.ltb_ge in Hp.
  destruct (scan (λ j, pid j = p) t) as [i|] eqn:Hscan; simpl; [|done].
  apply scan_Some in Hscan as (j & Hj & Hpid & _).
  apply scan_None, Forall_lookup. intros n j' Hn Hpid'.
  apply lookup_alter_cases in Hn as [(-> & j0 & _ & ->)|[Hne Hn]].
  - simpl in Hpid'. lia.
  - apply Hne. eapply (Huniq n i); [done..| |congruence].
    unfold active. lia.
Qed.

Lemma list_find_cons_eq (P : job_t → Prop) `{∀ j, Decision (P j)} j t :
  list_find P (j :: t) =
    if decide (P j) then Some (0%nat, j) else prod_map S id <$> list_find P t.
Proof. reflexivity. Qed.

(** A change of state does not change which jid a pid maps to. *)
Lemma pid2jid_alter_state st i t p :
  pid2jid (alter (set_state st) i t) p = pid2jid t p.
Proof.
  unfold pid2jid. destruct (p <? 1); [done|].
  revert i. induction t as [|j t IH]; intros i; [done|].
  destruct i as [|i].
  - change (alter (set_state st) 0%nat (j :: t)) with (set_state st j :: t).
    rewrite !list_find_cons_eq. simpl pid.
    destruct (decide (pid j = p)); done.
  - change (alter (set_state st) (S i) (j :: t))
      with (j :: alter (set_state st) i t).
    rewrite !list_find_cons_eq.
    destruct (decide (pid j = p)); [done|].
    specialize (IH i).
    destruct (list_find _ (alter (set_state st) i t)) as [[? ?]|],
             (list_find _ t) as [[? ?]|]; simpl in *; done.
Qed.

End JobTable.

(** ** Tables of the running shell *)

(** The handlers, the waiter, the builtins and the spawn path each keep
    the shape [table_ok], and so does every schedule of [run]. *)
Section Reachable.

Lemma alter_state_table_ok st i t :
  table_ok t → table_ok (alter (set_state st) i t).
Proof.
  intros [Hlen Hok]. split; [by rewrite length_alter|].
  apply Forall_alter; [done|]. by intros j _ Hj.
Qed.

Lemma sigchld_handler_table_ok w : ∀ s,
  table_ok (jobs s) → table_ok (jobs (final (sigchld_handler w s))).
Proof.
  induction w as [|r w IH]; intros s Hok; [done|].
  cbn [sigchld_handler].
  destruct (0 <? w_result r); [|by destruct (_ && _)].
  destruct (w_status r) as [code|sig|sig].
  - apply IH. by apply deletejob_table_ok.
  - apply IH. by apply deletejob_table_ok.
  - cbn [emit jobs]. destruct (getjobpid _ _); [|done].
    by apply alter_state_table_ok.
Qed.

Lemma deliver_table_ok d s :
  table_ok (jobs s) → table_ok (jobs (final (deliver d s))).
Proof.
  intros Hok. destruct d as [w|k e|k e| |]; cbn [deliver].
  - unfold bind, ret. pose proof (sigchld_handler_table_ok w s Hok) as H.
    by destruct (sigchld_handler w s).
  - unfold sigint_handler. destruct (fgpid _ =? 0); [done|]. by destruct (k =? -1).
  - unfold sigtstp_handler. destruct (fgpid _ =? 0); [done|]. by destruct (k =? -1).
  - done.
  - done.
Qed.

Lemma waitfg_table_ok p ds : ∀ s,
  table_ok (jobs s) → table_ok (jobs (final (waitfg p ds s))).
Proof.
  induction ds as [|d ds IH]; intros s Hok; simpl.
  - by destruct (child_finished s =? 0).
  - destruct (child_finished s =? 0); [|done].
    pose proof (deliver_table_ok d s Hok) as H.
    destruct (deliver d s) as [[] s'|h s']; [by apply IH|done].
Qed.

Lemma delivers_table_ok ds : ∀ s,
  table_ok (jobs s) → table_ok (jobs (final (delivers ds s))).
Proof.
  induction ds as [|d ds IH]; intros s Hok; [done|].
  cbn [delivers]. unfold bind.
  pose proof (deliver_table_ok d s Hok) as H.
  destruct (deliver d s) as [[] s'|h s']; [by apply IH|done].
Qed.

Lemma do_bgfg_table_ok argv k ds s :
  table_ok (jobs s) → table_ok (jobs (final (do_bgfg argv k ds s))).
Proof.
  intros Hok. unfold do_bgfg.
  repeat case_match; try done;
    try (apply waitfg_table_ok); by apply alter_state_table_ok.
Qed.

Lemma builtin_cmd_table_ok argv k ds s :
  table_ok (jobs s) → table_ok (jobs (final (builtin_cmd argv k ds s))).
Proof.
  intros Hok. unfold builtin_cmd. destruct argv as [|cmd argv]; [done|].
  pose proof (do_bgfg_table_ok (cmd :: argv) k ds s Hok) as H.
  repeat case_match; try done; unfold bind, ret;
    by destruct (do_bgfg (cmd :: argv) k ds s).
Qed.

Lemma eval_table_ok cmdline parsed o s :
  table_ok (jobs s) → table_ok (jobs (final (eval cmdline parsed o s))).
Proof.
  intros Hok. unfold eval.
  destruct (cut_at_amp parsed) as [bg [|a argv]]; [done|].
  pose proof (builtin_cmd_table_ok (a :: argv) (kill_ret o) (arrivals o) s Hok) as H.
  destruct (builtin_cmd (a :: argv) (kill_ret o) (arrivals o) s)
    as [[b rest] s1|h s1]; [|done].
  simpl in H.
  repeat case_match; try done;
    try match goal with
        | Hd : delivers _ ?s0 = _ |- _ =>
            let Hs := fresh in
            assert (Hs : table_ok (jobs s0))
              by (cbn [set_blocked set_jobs emit emits jobs];
                  by eapply addjob_table_ok);
            apply (delivers_table_ok (at_unblock o)) in Hs; rewrite Hd in Hs
        end;
    try (apply waitfg_table_ok); try done;
    cbn [set_blocked set_jobs emit emits jobs]; by eapply addjob_table_ok.
Qed.

Theorem run_table_ok ins : ∀ s,
  table_ok (jobs s) → table_ok (jobs (final (run ins s))).
Proof.
  induction ins as [|[c p o|d] ins IH]; intros s Hok; simpl; [done|..].
  - pose proof (eval_table_ok c p o s Hok) as H.
    destruct (eval c p o s); [by apply IH|done].
  - destruct (deliverable d s); [|by apply IH].
    pose proof (deliver_table_ok d s Hok) as H.
    destruct (deliver d s); [by apply IH|done].
Qed.
End Reachable.

Lemma shell0_table_ok : table_ok (jobs shell0).
Proof. apply jobs0_table_ok. Qed.

(** ** The [bg] builtin on an unknown jid *)




(** ** The child-status handler *)

(** One turn of the reaping loop, for every state [s], answer [r] of
    waitpid and remaining answers [rest]: the stopped child with a table
    entry, the child terminated by a signal, the child that exited, the
    answers 0 and -1 with errno 10, and -1 with another errno. *)
Lemma sigchld_handler_turn r rest s :
  (∀ sig i, 0 < w_result r → w_status r = Stopped sig →
     getjobpid (jobs s) (w_result r) = Some i →
     sigchld_handler (r :: rest) s =
       Ret rest
         (Shell (alter (set_state ST) i (jobs s)) 1 (verbose s) (ready s)
            (sigchld_blocked s)
            (log s ++ [Reap (w_result r);
                       Print Stdout (stopped_msg (jobs s) (w_result r) sig)])))
  ∧
  (∀ sig, 0 < w_result r → w_status r = Signaled sig →
     sigchld_handler (r :: rest) s =
       sigchld_handler rest
         (Shell (fst (deletejob (jobs s) (w_result r))) 1 (verbose s) (ready s)
            (sigchld_blocked s)
            (log s ++ [Reap (w_result r);
                       Print Stdout
                         (terminated_msg (jobs s) (w_result r) sig)])))
  ∧
  (∀ code, 0 < w_result r → w_status r = Exited code →
     sigchld_handler (r :: rest) s =
       sigchld_handler rest
         (Shell (fst (deletejob (jobs s) (w_result r))) 1 (verbose s) (ready s)
            (sigchld_blocked s) (log s ++ [Reap (w_result r)])))
  ∧
  (w_result r = 0 ∨ (w_result r = -1 ∧ w_errno r = 10) →
     sigchld_handler (r :: rest) s = Ret rest (emit (Reap (w_result r)) s))
  ∧
  (w_result r = -1 → w_errno r ≠ 10 →
     sigchld_handler (r :: rest) s =
       Ret rest
         (emits [Reap (-1); Print Stderr (exorcism_msg (w_errno r))] s)).
Proof.
  destruct r as [p status errno]. simpl w_result. simpl w_status.
  simpl w_errno. split_and!.
  - intros sig i Hp -> Hi. cbn [sigchld_handler w_result w_status].
    apply Z.ltb_lt in Hp as ->. cbn [emit jobs]. rewrite Hi.
    unfold stopped_msg, emit, set_jobs, set_child_finished. cbn.
    rewrite pid2jid_alter_state, <- app_assoc. done.
  - intros sig Hp ->. cbn [sigchld_handler w_result w_status].
    apply Z.ltb_lt in Hp as ->.
    unfold terminated_msg, emit, set_jobs, set_child_finished. cbn.
    rewrite <- app_assoc. done.
  - intros code Hp ->. cbn [sigchld_handler w_result w_status].
    apply Z.ltb_lt in Hp as ->. done.
  - intros [->|[-> ->]]; done.
  - intros -> Hne. cbn [sigchld_handler w_result w_errno].
    apply Z.eqb_neq in Hne as ->. unfold emits, emit, exorcism_msg. cbn.
    rewrite <- app_assoc. done.
Qed.

(** The handler always comes back or stops at the NULL dereference; a
    whole run over children that all terminated deletes each of them. *)
Lemma sigchld_handler_terminated pre : ∀ tail s,
  Forall (λ r, 0 < w_result r ∧ ∀ sig, w_status r ≠ Stopped sig) pre →
  ∃ s', sigchld_handler (pre ++ tail) s = sigchld_handler tail s' ∧
        jobs s' = foldl (λ t r, fst (deletejob t (w_result r))) (jobs s) pre ∧
        child_finished s' = (if pre is [] then child_finished s else 1) ∧
        sigchld_blocked s' = sigchld_blocked s.
Proof.
  induction pre as [|r pre IH]; intros tail s Hpre; [by exists s|].
  apply Forall_cons in Hpre as [[Hp Hst] Hpre].
  destruct (sigchld_handler_turn r (pre ++ tail) s)
    as (_ & Hsig & Hexit & _).
  destruct (w_status r) as [code|sig|sig] eqn:E; [| |by destruct (Hst sig)].
  - rewrite <- app_comm_cons, (Hexit code Hp eq_refl).
    edestruct IH as (s' & -> & Hj & Hc & Hb); [done|].
    exists s'. split_and!; [done|done| |done].
    rewrite Hc. by destruct pre.
  - rewrite <- app_comm_cons, (Hsig sig Hp eq_refl).
    edestruct IH as (s' & -> & Hj & Hc & Hb); [done|].
    exists s'. split_and!; [done|done| |done].
    rewrite Hc. by destruct pre.
Qed.

(** ** The keyboard handlers *)

Lemma keyboard_handlers_no_foreground sig k e s :
  fgpid (jobs s) = 0 →
  sigint_handler sig k e s = Ret tt s ∧ sigtstp_handler sig k e s = Ret tt s.
Proof. intros H. unfold sigint_handler, sigtstp_handler. by rewrite H. Qed.

Lemma keyboard_handlers_target sig k e s :
  fgpid (jobs s) ≠ 0 →
  ∃ s1 s2 es1 es2,
    sigint_handler sig k e s = Ret tt s1 ∧
    sigtstp_handler sig k e s = Ret tt s2 ∧
    jobs s1 = jobs s ∧ jobs s2 = jobs s ∧
    log s1 = log s ++ Kill (fgpid (jobs s)) sig :: es1 ∧
    log s2 = log s ++ Kill (fgpid (jobs s)) sig :: es2.
Proof.
  intros H. unfold sigint_handler, sigtstp_handler.
  apply Z.eqb_neq in H as ->.
  destruct (k =? -1); do 4 eexists; split_and!; try reflexivity;
    cbn; rewrite <- ?app_assoc; reflexivity.
Qed.

(** C1: with [sleep 100] running in the foreground as pid 100, the
    interrupt handler and the stop handler each call [kill(100, sig)]:
    the target is the pid itself, not the negated pid of the process
    group. *)
Theorem keyboard_handlers_signal_single_pid :
  eval (cat ["sleep 100"; NL]) ["sleep"; "100"] (OS 0 100 0 0 []) shell0
    = Halt Asleep fg_waiting ∧
  fgpid (jobs fg_waiting) = 100 ∧
  sigint_handler SIGINT 0 0 fg_waiting
    = Ret tt (emit (Kill 100 SIGINT) fg_waiting) ∧
  sigtstp_handler SIGTSTP 0 0 fg_waiting
    = Ret tt (emit (Kill 100 SIGTSTP) fg_waiting).
Proof. repeat split; vm_compute; reflexivity. Qed.

(** ** The foreground waiter *)

(** [waitfg] does not sleep when the flag is already set. *)
Lemma waitfg_flag_already_set p ds s :
  child_finished s ≠ 0 → waitfg p ds s = Ret ds (emit (Confirm p) s).
Proof. intros H. destruct ds; simpl; by apply Z.eqb_neq in H as ->. Qed.

(** C3: [sleep 100] is started in the foreground and stopped with
    ctrl-z, which leaves job 1 [ST] and the flag set.  [fg %1] then sends
    SIGCONT to the group -100 and makes the job [FG], but comes back to
    the read loop although no signal arrives at all: the waiter sees the
    flag left over from the stop. *)
Theorem fg_returns_without_new_status_change :
  let s1 := final (run stop_session shell0) in
  run stop_session shell0 = Ret tt s1 ∧
  jobs s1 !! 0%nat = Some (Job 100 1 ST (cat ["sleep 100"; NL])) ∧
  child_finished s1 = 1 ∧
  ∃ s2, eval (cat ["fg %1"; NL]) ["fg"; "%1"] (OS 0 0 0 0 []) s1 = Ret [] s2 ∧
        jobs s2 !! 0%nat = Some (Job 100 1 FG (cat ["sleep 100"; NL])) ∧
        log s2 = log s1 ++ [Kill (-100) SIGCONT; Confirm 100].
Proof.
  split; [vm_compute; reflexivity|]. split; [vm_compute; reflexivity|].
  split; [vm_compute; reflexivity|].
  eexists. split; [vm_compute; reflexivity|]. split; vm_compute; reflexivity.
Qed.

Lemma deliver_child_exits :
  deliver (OnChld [Wait 100 (Exited 0) 0; Wait (-1) (Exited 0) 10]) fg_waiting
    = Ret tt after_exit.
Proof. vm_compute. reflexivity. Qed.

(** C4: the waiter for pid 100 has read the flag as 0 and has not yet
    called sigsuspend when the child exits.  The handler runs, removes
    the job and sets the flag; the waiter then suspends, and since no
    further signal arrives no step is possible any more: it never
    returns. *)
Theorem notification_before_suspend_is_lost :
  ∃ c, wsteps 100 race_start c ∧
       at_point c = InSuspend ∧ coming c = [] ∧
       child_finished (sh c) = 1 ∧
       getjobpid (jobs (sh c)) 100 = None ∧
       ∀ c', ¬ wstep 100 c c'.
Proof.
  exists (Config InSuspend after_exit []). split_and!; try reflexivity.
  - wstep_by ltac:(by apply step_test_zero).
    wstep_by ltac:(apply step_signal_awake;
                   [done|done|apply deliver_child_exits]).
    wstep_by ltac:(apply step_suspend). apply rtc_refl.
  - intros c' Hstep. inversion Hstep.
Qed.

(** The same signal arriving during sigsuspend wakes the waiter. *)
Lemma notification_during_suspend_wakes :
  wsteps 100 race_start (Config Returned (emit (Confirm 100) after_exit) []).
Proof.
  wstep_by ltac:(by apply step_test_zero).
  wstep_by ltac:(apply step_suspend).
  wstep_by ltac:(apply step_signal_suspended, deliver_child_exits).
  wstep_by ltac:(by apply step_test_nonzero).
  wstep_by ltac:(apply step_confirm). apply rtc_refl.
Qed.

(** The function [waitfg] is the schedule of the machine in which every
    signal arrives during sigsuspend. *)
Lemma waitfg_wsteps p ds : ∀ s ds' s',
  waitfg p ds s = Ret ds' s' →
  wsteps p (Config AtTest s ds) (Config Returned s' ds').
Proof.
  induction ds as [|d ds IH]; intros s ds' s'; simpl.
  - destruct (child_finished s =? 0) eqn:E; [done|]. intros [= <- <-].
    apply Z.eqb_neq in E.
    wstep_by ltac:(by apply step_test_nonzero).
    wstep_by ltac:(apply step_confirm). apply rtc_refl.
  - destruct (child_finished s =? 0) eqn:E.
    + apply Z.eqb_eq in E.
      destruct (deliver d s) as [[] s1|] eqn:Hd; [|done]. intros Hw.
      wstep_by ltac:(by apply step_test_zero).
      wstep_by ltac:(apply step_suspend).
      wstep_by ltac:(by apply step_signal_suspended). by apply IH.
    + intros [= <- <-]. apply Z.eqb_neq in E.
      wstep_by ltac:(by apply step_test_nonzero).
      wstep_by ltac:(apply step_confirm). apply rtc_refl.
Qed.

(** ** Sessions *)

(** C7: two foreground jobs are stopped with ctrl-z one after the other
    and then resumed with [fg %1] and [fg %2]; neither [fg] waits, and
    at the next prompt both jobs are in state [FG]. *)
Theorem two_foreground_jobs_between_commands :
  ∃ s, run two_foreground shell0 = Ret tt s ∧
       foreground_jobs (jobs s) =
         [Job 100 1 FG (cat ["sleep 100"; NL]);
          Job 101 2 FG (cat ["sleep 200"; NL])].
Proof. eexists. split; vm_compute; reflexivity. Qed.

(** C2: with sixteen jobs in the table a seventeenth command is forked
    as pid 117; [addjob] fails and [eval] returns with SIGCHLD still
    blocked and no entry for 117.  When [fg %1] then suspends, the
    pending SIGCHLD is delivered and the handler reaps pid 117, which the
    table never held. *)
Theorem unregistered_child_is_reaped :
  let s1 := final (run table_overflow shell0) in
  run table_overflow shell0 = Ret tt s1 ∧
  Fork 117 ∈ log s1 ∧
  getjobpid (jobs s1) 117 = None ∧
  sigchld_blocked s1 = true ∧
  ∃ s2, eval (cat ["fg %1"; NL]) ["fg"; "%1"]
          (OS 0 0 0 0 [OnChld [Wait 117 (Exited 0) 0]]) s1 = Ret [] s2 ∧
        log s2 =
          log s1 ++ [Kill (-101) SIGCONT; Reap 117; Reap 0; Confirm 101] ∧
        jobs s2 = alter (set_state FG) 0%nat (jobs s1).
Proof.
  split; [vm_compute; reflexivity|]. split.
  { apply list_elem_of_In. vm_compute. tauto. }
  split; [vm_compute; reflexivity|]. split; [vm_compute; reflexivity|].
  eexists. split; [vm_compute; reflexivity|]. split; vm_compute; reflexivity.
Qed.

(** C10: in the same session the seventeenth child, [cat] in the
    background, is stopped by SIGTTIN (21).  The handler reaps pid 117 as
    stopped, [getjobpid] returns NULL, and the store through it
    crashes the shell. *)
Theorem stopped_child_without_entry_crashes :
  ∃ s, run (table_overflow ++
            [builtin_line "fg %1" ["fg"; "%1"]
               [OnChld [Wait 117 (Stopped 21) 0]]]) shell0 = Halt Segv s ∧
       getjobpid (jobs s) 117 = None ∧
       last (log s) = Some (Reap 117).
Proof.
  eexists. split; [vm_compute; reflexivity|]. split; vm_compute; reflexivity.
Qed.

(** C5: with sixteen jobs in the table [cat] is typed in the foreground
    and forked as pid 117; [addjob] fails and [eval] returns without an
    entry for 117.  The child stops on its read from the terminal (SIGTTIN,
    21), and the handler that runs when [fg %1] suspends reaps it as
    stopped.  No job is set to [ST], no stopped-by-signal message is
    printed and the flag stays 0: the handler ends at the store through
    the NULL that [getjobpid] returned. *)
Theorem stopped_child_is_not_recorded :
  let s1 := final (run foreground_overflow shell0) in
  run foreground_overflow shell0 = Ret tt s1 ∧
  getjobpid (jobs s1) 117 = None ∧
  ∃ s2, eval (cat ["fg %1"; NL]) ["fg"; "%1"]
          (OS 0 0 0 0 [OnChld [Wait 117 (Stopped 21) 0]]) s1 = Halt Segv s2 ∧
        log s2 = log s1 ++ [Kill (-101) SIGCONT; Reap 117] ∧
        child_finished s2 = 0 ∧
        Forall (λ j, state j ≠ ST) (jobs s2).
Proof.
  split; [vm_compute; reflexivity|]. split; [vm_compute; reflexivity|].
  eexists. split; [vm_compute; reflexivity|].
  split; [vm_compute; reflexivity|]. split; [reflexivity|].
  apply (bool_decide_unpack _). vm_compute. reflexivity.
Qed.

(** Where the handler stops at a NULL dereference in general. *)
Lemma sigchld_handler_null_dereference r rest s sig :
  0 < w_result r → w_status r = Stopped sig →
  getjobpid (jobs s) (w_result r) = None →
  sigchld_handler (r :: rest) s = Halt Segv (emit (Reap (w_result r)) s).
Proof.
  intros Hp Hst Hnone. cbn [sigchld_handler].
  apply Z.ltb_lt in Hp as ->. rewrite Hst. cbn [emit jobs]. by rewrite Hnone.
Qed.

(** ** More on the job table *)

Section TableMore.
Implicit Types (t : list job_t) (j : job_t) (k p : Z).

Lemma jobs0_clean : Forall slot_clean jobs0.
Proof. unfold jobs0. simpl. repeat (constructor; [by intros _|]). constructor. Qed.

(** What a successful [addjob] did. *)
Lemma addjob_success v t p st cmd a :
  table_ok t → addjob v t p st cmd = Some a → add_ret a = 1 →
  ∃ i k j0, 1 ≤ p ∧ smallest_free_jid t k ∧
            t !! i = Some j0 ∧ pid j0 = 0 ∧
            (∀ i' j', t !! i' = Some j' → (i' < i)%nat → pid j' ≠ 0) ∧
            a = Added (<[i := Job p k st cmd]> t) 1 (added_msg v k p cmd).
Proof.
  intros [_ Hok] Ha Hret.
  destruct (addjob_cases v t p st cmd Hok) as (a' & Ha' & Hcases).
  rewrite Ha in Ha'. injection Ha' as <-.
  destruct Hcases
    as [[_ ->]|[(_ & _ & ->)|(Hp & k & Hk & [(i & Hi & ->)|[_ ->]])]];
    simpl in Hret; try done.
  apply scan_Some in Hi as (j0 & Hj0 & Hpid & Hfirst).
  exists i, k, j0. split_and!; done.
Qed.

Lemma addjob_clean v t p st cmd a :
  table_ok t → Forall slot_clean t → addjob v t p st cmd = Some a →
  Forall slot_clean (add_jobs a).
Proof.
  intros [Hlen Hok] Hcl Ha.
  destruct (addjob_cases v t p st cmd Hok) as (a' & Ha' & Hcases).
  rewrite Ha in Ha'. injection Ha' as <-.
  destruct Hcases
    as [[_ ->]|[(_ & _ & ->)|(Hp & k & Hk & [(i & _ & ->)|[_ ->]])]];
    simpl; try done.
  apply Forall_insert; [done|]. intros Hpid. simpl in Hpid. lia.
Qed.

Lemma deletejob_clean t p :
  Forall slot_clean t → Forall slot_clean (fst (deletejob t p)).
Proof.
  intros Hcl. unfold deletejob. destruct (p <? 1); [done|].
  destruct (scan _ t) as [i|]; [|done]. simpl.
  apply Forall_alter; [done|]. by intros j _ _ _.
Qed.

Lemma apply_ops_clean v ops : ∀ t t',
  table_ok t → Forall slot_clean t → apply_ops v t ops = Some t' →
  Forall slot_clean t'.
Proof.
  induction ops as [|op ops IH]; intros t t' Hok Hcl; simpl.
  - by intros [= <-].
  - destruct (apply_op v t op) as [t1|] eqn:Hop; [|done].
    destruct op as [p st cmd|p]; simpl in Hop.
    + destruct (addjob v t p st cmd) as [a|] eqn:Ha; simplify_eq/=.
      apply IH; [by eapply addjob_table_ok|by eapply addjob_clean].
    + simplify_eq.
      apply IH; [by apply deletejob_table_ok|by apply deletejob_clean].
Qed.

(** X1: every sequence of add and remove operations from the empty table
    is defined (the scratch array of [freejid] is never indexed out of
    bounds) and ends in a table of [MAXJOBS] slots whose active jobs have
    jids in [1, MAXJOBS], all different, and whose free slots are exactly
    what [clearjob] leaves. *)
Theorem reachable_tables_well_formed v ops :
  ∃ t, apply_ops v jobs0 ops = Some t ∧
       table_ok t ∧ jids_unique t ∧ Forall slot_clean t.
Proof.
  destruct (apply_ops_defined v ops jobs0 jobs0_table_ok) as [t Ht].
  exists t. split_and!; [done|..].
  - by eapply apply_ops_table_ok; [apply jobs0_table_ok|].
  - by eapply apply_ops_jids_unique;
      [apply jobs0_table_ok|apply jobs0_jids_unique|].
  - by eapply apply_ops_clean; [apply jobs0_table_ok|apply jobs0_clean|].
Qed.

(** The job stored by [addjob] is the first entry with its pid when the
    pid was not in the table. *)
Lemma scan_inserted t i p k st cmd :
  (i < length t)%nat → 1 ≤ p → getjobpid t p = None →
  scan (λ e, pid e = p) (<[i := Job p k st cmd]> t) = Some i.
Proof.
  intros Hi Hp Hnew. unfold getjobpid in Hnew.
  assert ((p <? 1) = false) as Hp' by (apply Z.ltb_ge; lia).
  rewrite Hp' in Hnew. apply scan_None in Hnew.
  apply scan_Some. eexists. split_and!; [by apply list_lookup_insert_eq|done|].
  intros i' j' Hj' Hlt. rewrite list_lookup_insert_ne in Hj' by lia.
  eapply Forall_lookup_1 in Hnew; [|done]. done.
Qed.

Lemma getjobpid_None t p :
  1 ≤ p → getjobpid t p = None ↔ Forall (λ j, pid j ≠ p) t.
Proof.
  intros Hp. unfold getjobpid.
  assert ((p <? 1) = false) as -> by (apply Z.ltb_ge; lia).
  apply scan_None.
Qed.

Lemma pid2jid_scan t p i j :
  scan (λ e, pid e = p) t = Some i → t !! i = Some j → 1 ≤ p →
  pid2jid t p = jid j.
Proof.
  intros Hscan Hj Hp. unfold pid2jid, scan in *.
  assert ((p <? 1) = false) as -> by (apply Z.ltb_ge; lia).
  destruct (list_find _ t) as [[i' j']|] eqn:E; simplify_eq/=.
  apply list_find_Some in E as (Hj' & _). congruence.
Qed.

(** X3: round trip.  After a successful add of a pid that was not in the
    table, the new job is found by [getjobpid], by [getjobjid] under the
    jid it was given, and [pid2jid] maps its pid to that jid. *)
Theorem addjob_then_lookup v t p st cmd a :
  table_ok t → getjobpid t p = None →
  addjob v t p st cmd = Some a → add_ret a = 1 →
  ∃ i k, add_jobs a !! i = Some (Job p k st cmd) ∧
         getjobpid (add_jobs a) p = Some i ∧
         getjobjid (add_jobs a) k = Some i ∧
         pid2jid (add_jobs a) p = k.
Proof.
  intros Hok Hnew Ha Hret.
  destruct (addjob_success v t p st cmd a Hok Ha Hret)
    as (i & k & j0 & Hp & Hk & Hj0 & Hpid0 & Hfirst & ->).
  cbn [add_jobs] in *.
  destruct Hok as [Hlen Hok].
  assert (Hi : (i < length t)%nat) by by eapply lookup_lt_Some.
  assert (Hat : <[i := Job p k st cmd]> t !! i = Some (Job p k st cmd))
    by by apply list_lookup_insert_eq.
  apply getjobpid_None in Hnew; [|done].
  assert (Hscan : scan (λ e, pid e = p) (<[i := Job p k st cmd]> t) = Some i).
  { apply scan_Some. eexists. split_and!; [done..|].
    intros i' j' Hj' Hlt. rewrite list_lookup_insert_ne in Hj' by lia.
    eapply Forall_lookup_1 in Hnew; [|done]. done. }
  exists i, k. split_and!; [done|..].
  - unfold getjobpid.
    by assert ((p <? 1) = false) as -> by (apply Z.ltb_ge; lia).
  - unfold getjobjid. destruct Hk as (Hk & Hfree & _).
    assert ((k <? 1) = false) as -> by (apply Z.ltb_ge; lia).
    apply scan_Some. eexists. split_and!; [done..|].
    intros i' j' Hj' Hlt Hjid. rewrite list_lookup_insert_ne in Hj' by lia.
    apply Hfree, jid_in_use_iff; [done|lia|].
    exists j'. split; [by eapply list_elem_of_lookup_2|done].
  - by rewrite (pid2jid_scan _ p i (Job p k st cmd)).
Qed.


Lemma addjob_undone v t p st cmd a :
  table_ok t → Forall slot_clean t → getjobpid t p = None →
  addjob v t p st cmd = Some a → add_ret a = 1 →
  deletejob (add_jobs a) p = (t, 1).
Proof.
  intros Hok Hcl Hnew Ha Hret.
  destruct (addjob_success v t p st cmd a Hok Ha Hret)
    as (i & k & j0 & Hp & Hk & Hj0 & Hpid0 & Hfirst & ->).
  cbn [add_jobs] in *.
  assert (Hi : (i < length t)%nat) by by eapply lookup_lt_Some.
  apply getjobpid_None in Hnew; [|done].
  assert (Hscan : scan (λ e, pid e = p) (<[i := Job p k st cmd]> t) = Some i).
  { apply scan_Some. eexists. split_and!; [by apply list_lookup_insert_eq|done|].
    intros i' j' Hj' Hlt. rewrite list_lookup_insert_ne in Hj' by lia.
    eapply Forall_lookup_1 in Hnew; [|done]. done. }
  unfold deletejob.
  assert ((p <? 1) = false) as -> by (apply Z.ltb_ge; lia).
  rewrite Hscan. f_equal.
  apply list_eq. intros n. destruct (decide (n = i)) as [->|Hne].
  - rewrite list_lookup_alter_eq, list_lookup_insert_eq by done. simpl.
    rewrite Hj0. f_equal. symmetry.
    eapply Forall_lookup_1 in Hcl; [|done]. by apply Hcl.
  - by rewrite list_lookup_alter_ne, list_lookup_insert_ne.
Qed.

Lemma getjobpid_Some t p i :
  getjobpid t p = Some i ↔
  1 ≤ p ∧ ∃ j, t !! i = Some j ∧ pid j = p ∧
               ∀ i' j', t !! i' = Some j' → (i' < i)%nat → pid j' ≠ p.
Proof.
  unfold getjobpid. destruct (p <? 1) eqn:Hp.
  - apply Z.ltb_lt in Hp. split; [done|lia].
  - apply Z.ltb_ge in Hp. rewrite scan_Some. split; [by intros ?|by intros [_ ?]].
Qed.

(** Deleting one pid does not change the lookup of another. *)
Lemma deletejob_other t p q :
  q ≠ p → getjobpid (fst (deletejob t p)) q = getjobpid t q.
Proof.
  intros Hq. unfold deletejob. destruct (p <? 1) eqn:Hp; [done|].
  apply Z.ltb_ge in Hp.
  destruct (scan (λ j, pid j = p) t) as [i|] eqn:Hscan; [|done]. simpl.
  apply scan_Some in Hscan as (j & Hj & Hpid & _).
  destruct (decide (1 ≤ q)) as [H1|H1].
  2:{ unfold getjobpid. by assert ((q <? 1) = true) as ->
        by (apply Z.ltb_lt; lia). }
  assert (Hsame : ∀ n e, pid e = q →
            alter clearjob i t !! n = Some e ↔ t !! n = Some e).
  { intros n e He. destruct (decide (n = i)) as [->|Hne].
    - rewrite list_lookup_alter_eq, Hj. simpl.
      split; intros [= <-]; simpl in *; lia.
    - by rewrite list_lookup_alter_ne. }
  apply option_eq. intros n. rewrite !getjobpid_Some. split.
  - intros (_ & e & He & Hpe & Hfirst). split; [done|].
    exists e. split_and!; [by apply Hsame in He|done|].
    intros i' j' Hj' Hlt Hpj'. apply (Hfirst i' j'); [|done..].
    by apply Hsame.
  - intros (_ & e & He & Hpe & Hfirst). split; [done|].
    exists e. split_and!; [by apply Hsame|done|].
    intros i' j' Hj' Hlt Hpj'. apply Hsame in Hj'; [|done].
    by apply (Hfirst i' j').
Qed.

Lemma deletejob_absent t p : getjobpid t p = None → deletejob t p = (t, 0).
Proof.
  unfold getjobpid, deletejob. destruct (p <? 1); [done|]. by intros ->.
Qed.

Lemma deletejob_pids_unique t p :
  pids_unique t → pids_unique (fst (deletejob t p)).
Proof.
  intros Huniq. unfold deletejob. destruct (p <? 1); [done|].
  destruct (scan _ t) as [i|]; [|done]. simpl.
  intros i1 i2 j1 j2 H1 H2 Hact Hpid.
  apply lookup_alter_cases in H1 as [(-> & j1' & H1 & ->)|[? H1]].
  { by destruct Hact. }
  apply lookup_alter_cases in H2 as [(-> & j2' & H2 & ->)|[? H2]].
  { simpl in Hpid. by destruct Hact. }
  by eapply Huniq.
Qed.

(** X5: [deletejob] against [getjobpid].  When the pid is not found the
    table is returned unchanged with result 0; when it is found at slot
    [i] that slot alone is cleared and the result is 1; the lookup of
    every other pid is the same before and after. *)
Theorem deletejob_lookup t p :
  (getjobpid t p = None → deletejob t p = (t, 0)) ∧
  (∀ i, getjobpid t p = Some i →
        deletejob t p = (<[i := Job 0 0 UNDEF ""]> t, 1)) ∧
  (∀ q, q ≠ p → getjobpid (fst (deletejob t p)) q = getjobpid t q).
Proof.
  split_and!.
  - apply deletejob_absent.
  - intros i Hi. unfold getjobpid, deletejob in *.
    destruct (p <? 1); [done|]. rewrite Hi. f_equal.
    apply scan_Some in Hi as (j & Hj & _).
    apply list_eq. intros n. destruct (decide (n = i)) as [->|Hne].
    + rewrite list_lookup_alter_eq, Hj, list_lookup_insert_eq; [done|].
      by eapply lookup_lt_Some.
    + by rewrite list_lookup_alter_ne, list_lookup_insert_ne.
  - intros q Hq. by apply deletejob_other.
Qed.

(** X6: on a well-formed table with unique jids, [getjobjid] returns slot
    [i] exactly when slot [i] holds an active job with that jid. *)
Theorem getjobjid_exact t k i :
  table_ok t → jids_unique t →
  getjobjid t k = Some i ↔ ∃ j, t !! i = Some j ∧ active j ∧ jid j = k.
Proof.
  intros [_ Hok] Huniq. unfold getjobjid. split.
  - destruct (k <? 1) eqn:Hk; [done|]. apply Z.ltb_ge in Hk.
    intros (j & Hj & Hjid & _)%scan_Some. exists j. split_and!; [done| |done].
    destruct (slot_ok_lookup t i j Hok Hj) as [[? ?]|[? ?]]; [lia|done].
  - intros (j & Hj & Hact & Hjid).
    destruct (slot_ok_lookup t i j Hok Hj) as [[? ?]|[_ ?]]; [done|].
    assert ((k <? 1) = false) as -> by (apply Z.ltb_ge; lia).
    apply scan_Some. exists j. split_and!; [done..|].
    intros i' j' Hj' Hlt Hjid'.
    assert (i = i'); [|lia]. eapply Huniq; [done..|congruence].
Qed.

(** X7: [pid2jid] agrees with [getjobpid]: it returns 0 exactly when the
    pid has no entry, and otherwise the jid (at least 1) of the entry
    [getjobpid] finds. *)
Theorem pid2jid_agrees_with_getjobpid t p :
  table_ok t →
  (getjobpid t p = None ↔ pid2jid t p = 0) ∧
  ∀ i j, getjobpid t p = Some i → t !! i = Some j →
         pid j = p ∧ pid2jid t p = jid j ∧ 1 ≤ jid j.
Proof.
  intros [_ Hok].
  assert (Hfound : ∀ i j, getjobpid t p = Some i → t !! i = Some j →
            pid j = p ∧ pid2jid t p = jid j ∧ 1 ≤ jid j).
  { intros i j Hi Hj. pose proof Hi as Hi'.
    apply getjobpid_Some in Hi as (Hp & j' & Hj' & Hpid & _).
    rewrite Hj in Hj'. injection Hj' as <-.
    unfold getjobpid in Hi'. destruct (p <? 1); [done|].
    split_and!; [done|by eapply pid2jid_scan|].
    destruct (slot_ok_lookup t i j Hok Hj) as [[? ?]|[? ?]]; lia. }
  split; [|done]. split.
  - unfold getjobpid, pid2jid, scan. destruct (p <? 1); [done|].
    by destruct (list_find _ t) as [[? ?]|].
  - destruct (getjobpid t p) as [i|] eqn:Hi; [|done]. intros H0.
    pose proof Hi as Hi'. apply getjobpid_Some in Hi' as (_ & j & Hj & _).
    destruct (Hfound i j eq_refl Hj) as (_ & ? & ?). lia.
Qed.

(** [fgpid] is the pid of the first foreground job in table order. *)
Lemma fgpid_head t :
  fgpid t = match foreground_jobs t with [] => 0 | j :: _ => pid j end.
Proof.
  unfold fgpid, foreground_jobs. induction t as [|j t IH]; [done|].
  rewrite list_find_cons_eq, filter_cons.
  destruct (decide (state j = FG)); [done|].
  destruct (list_find _ t) as [[? ?]|]; simpl in *; done.
Qed.

Lemma slot_wf_ok j : slot_wf j → slot_ok j.
Proof. intros [->|(? & ? & _)]; [by left|right; lia]. Qed.

(** X8: [fgpid] returns 0 exactly when no job is in state [FG]; otherwise
    it returns the pid of the first foreground job in table order, which
    is positive and is found by [getjobpid]. *)
Theorem fgpid_foreground t :
  Forall slot_wf t →
  (fgpid t = 0 ↔ foreground_jobs t = []) ∧
  ∀ j rest, foreground_jobs t = j :: rest →
            fgpid t = pid j ∧ 1 ≤ pid j ∧ getjobpid t (pid j) ≠ None.
Proof.
  intros Hwf.
  assert (Hpos : ∀ j rest, foreground_jobs t = j :: rest → 1 ≤ pid j ∧ j ∈ t).
  { intros j rest Hfg. assert (j ∈ foreground_jobs t) as Hj
      by (rewrite Hfg; left).
    apply list_elem_of_filter in Hj as [Hst Hj]. split; [|done].
    rewrite Forall_forall in Hwf.
    destruct (Hwf j Hj) as [->|(? & _)]; [done|done]. }
  rewrite fgpid_head. split.
  - destruct (foreground_jobs t) as [|j rest] eqn:E; [done|].
    destruct (Hpos j rest eq_refl). split; [lia|done].
  - intros j rest Hfg. rewrite Hfg. destruct (Hpos j rest Hfg) as [Hp Hj].
    split_and!; [done..|]. intros Hnone%getjobpid_None; [|done].
    rewrite Forall_forall in Hnone. by apply (Hnone j).
Qed.

(** [listjobs] prints the three pieces of each active job, in table
    order, and nothing else. *)
Lemma listjobs_from_active t : ∀ n,
  Forall slot_wf t →
  listjobs_from n t = concat (job_lines <$> filter active t).
Proof.
  induction t as [|j t IH]; intros n Hwf; [done|].
  apply Forall_cons in Hwf as [Hj Hwf].
  cbn [listjobs_from]. rewrite filter_cons, (IH _ Hwf).
  destruct Hj as [->|(Hp & _ & Hst)].
  - by rewrite decide_False by (unfold active; simpl; lia).
  - rewrite decide_True by (unfold active; lia).
    assert ((pid j =? 0) = false) as -> by (apply Z.eqb_neq; lia).
    cbn [fmap list_fmap concat]. f_equal. unfold job_lines.
    destruct Hst as [Hst | [Hst | Hst]]; rewrite Hst; done.
Qed.
(** X4: round trip.  Deleting the pid that was just added, on a table
    whose free slots are clean and that did not hold the pid, returns 1
    and gives back the table as it was before the add. *)
Theorem addjob_then_deletejob v t p st cmd a :
  table_ok t → Forall slot_clean t → getjobpid t p = None →
  addjob v t p st cmd = Some a → add_ret a = 1 →
  deletejob (add_jobs a) p = (t, 1).
Proof. apply addjob_undone. Qed.

Lemma foreground_head t j rest :
  Forall slot_wf t → foreground_jobs t = j :: rest → 1 ≤ pid j ∧ j ∈ t.
Proof.
  intros Hwf Hfg. assert (j ∈ foreground_jobs t) as Hj by (rewrite Hfg; left).
  apply list_elem_of_filter in Hj as [Hst Hj]. split; [|done].
  rewrite Forall_forall in Hwf.
  destruct (Hwf j Hj) as [->|(? & _)]; [done|done].
Qed.

(** With room in the table and a valid pid, [addjob] succeeds. *)
Lemma addjob_room v t p st cmd :
  table_ok t → jids_unique t → 1 ≤ p → ¬ table_full t →
  ∃ a, addjob v t p st cmd = Some a ∧ add_ret a = 1.
Proof.
  intros Hok Huniq Hp Hroom.
  destruct (addjob_cases v t p st cmd (proj2 Hok)) as (a & Ha & Hcases).
  exists a. split; [done|].
  destruct Hcases
    as [[? ->]|[(? & ? & ->)|(_ & k & Hk & [(i & Hi & ->)|[Hno ->]])]];
    simpl; [lia|done|done|].
  destruct Hroom. apply no_free_slot_full; [done..|].
  by apply scan_None in Hno.
Qed.

End TableMore.


(** ** Invariants of the running shell

    The handlers, the waiter, the builtins and the spawn path each take
    a well-formed table to a well-formed table.  This covers the
    schedules of [run]; it says nothing about a SIGCHLD handled in the
    middle of [do_bgfg], where a job deleted between the lookup and the
    store of the state leaves a cleared slot with state [FG] or [BG]. *)

Section ShellInvariant.
Implicit Types (t : list job_t) (j : job_t) (k p : Z) (s : shell).

Lemma shell_inv_table_ok t : shell_inv t → table_ok t.
Proof.
  intros (Hlen & Hwf & _). split; [done|].
  eapply Forall_impl; [done|]. apply slot_wf_ok.
Qed.

Lemma jobs0_shell_inv : shell_inv jobs0.
Proof.
  split_and!; [done| |apply jobs0_jids_unique].
  unfold jobs0. simpl. repeat (constructor; [by left|]). constructor.
Qed.

Lemma alter_state_shell_inv st i t j :
  shell_inv t → valid_state st → t !! i = Some j → 1 ≤ pid j ∨ 1 ≤ jid j →
  shell_inv (alter (set_state st) i t).
Proof.
  intros (Hlen & Hwf & Huniq) Hst Hj Hact. split_and!.
  - by rewrite length_alter.
  - apply Forall_alter; [done|]. intros j' Hj' Hwf'.
    rewrite Hj in Hj'. injection Hj' as <-.
    destruct Hwf' as [->|(? & ? & _)]; [simpl in Hact; lia|].
    right. simpl. done.
  - intros i1 i2 j1 j2 H1 H2 Hact1 Hjid.
    apply lookup_alter_cases in H1 as [(-> & j1' & H1 & ->)|[? H1]];
      apply lookup_alter_cases in H2 as [(-> & j2' & H2 & ->)|[? H2]];
      try done; by eapply Huniq.
Qed.

Lemma deletejob_shell_inv t p : shell_inv t → shell_inv (fst (deletejob t p)).
Proof.
  intros Hinv. pose proof (shell_inv_table_ok t Hinv) as Hok.
  destruct Hinv as (Hlen & Hwf & Huniq). split_and!.
  - by destruct (deletejob_table_ok t p Hok).
  - unfold deletejob. destruct (p <? 1); [done|].
    destruct (scan _ t) as [i|]; [|done]. simpl.
    apply Forall_alter; [done|]. intros j _ _. by left.
  - by apply deletejob_jids_unique.
Qed.

Lemma addjob_shell_inv v t p st cmd a :
  shell_inv t → valid_state st → addjob v t p st cmd = Some a →
  shell_inv (add_jobs a).
Proof.
  intros Hinv Hst Ha. pose proof (shell_inv_table_ok t Hinv) as Hok.
  destruct Hinv as (Hlen & Hwf & Huniq). split_and!.
  - by destruct (addjob_table_ok v t p st cmd a Hok Ha).
  - destruct (addjob_cases v t p st cmd (proj2 Hok)) as (a' & Ha' & Hcases).
    rewrite Ha in Ha'. injection Ha' as <-.
    destruct Hcases
      as [[_ ->]|[(_ & _ & ->)|(Hp & k & Hk & [(i & _ & ->)|[_ ->]])]];
      simpl; try done.
    apply Forall_insert; [done|]. right. simpl. destruct Hk. done.
  - by eapply addjob_jids_unique.
Qed.

Lemma getjobpid_slot t p i :
  getjobpid t p = Some i → ∃ j, t !! i = Some j ∧ 1 ≤ pid j.
Proof. intros (Hp & j & Hj & <- & _)%getjobpid_Some. eauto. Qed.

Lemma getjobjid_slot t k i :
  getjobjid t k = Some i → ∃ j, t !! i = Some j ∧ 1 ≤ jid j.
Proof.
  unfold getjobjid. destruct (k <? 1) eqn:Hk; [done|]. apply Z.ltb_ge in Hk.
  intros (j & Hj & <- & _)%scan_Some. eauto.
Qed.

Lemma sigchld_handler_shell_inv w : ∀ s,
  shell_inv (jobs s) → shell_inv (jobs (final (sigchld_handler w s))).
Proof.
  induction w as [|r w IH]; intros s Hinv; [done|].
  cbn [sigchld_handler].
  destruct (0 <? w_result r); [|by destruct (_ && _)].
  destruct (w_status r) as [code|sig|sig].
  - apply IH. by apply deletejob_shell_inv.
  - apply IH. by apply deletejob_shell_inv.
  - cbn [emit jobs]. destruct (getjobpid _ _) as [i|] eqn:Hi; [|done].
    apply getjobpid_slot in Hi as (j & Hj & Hp).
    eapply alter_state_shell_inv; [done|by right; right|done|by left].
Qed.

Lemma deliver_shell_inv d s :
  shell_inv (jobs s) → shell_inv (jobs (final (deliver d s))).
Proof.
  intros Hinv. destruct d as [w|k e|k e| |]; cbn [deliver].
  - unfold bind, ret. pose proof (sigchld_handler_shell_inv w s Hinv) as H.
    by destruct (sigchld_handler w s).
  - unfold sigint_handler. destruct (fgpid _ =? 0); [done|].
    by destruct (k =? -1).
  - unfold sigtstp_handler. destruct (fgpid _ =? 0); [done|].
    by destruct (k =? -1).
  - done.
  - done.
Qed.

Lemma waitfg_shell_inv p ds : ∀ s,
  shell_inv (jobs s) → shell_inv (jobs (final (waitfg p ds s))).
Proof.
  induction ds as [|d ds IH]; intros s Hinv; simpl.
  - by destruct (child_finished s =? 0).
  - destruct (child_finished s =? 0); [|done].
    pose proof (deliver_shell_inv d s Hinv) as H.
    destruct (deliver d s) as [[] s'|h s']; [by apply IH|done].
Qed.

Lemma delivers_shell_inv ds : ∀ s,
  shell_inv (jobs s) → shell_inv (jobs (final (delivers ds s))).
Proof.
  induction ds as [|d ds IH]; intros s Hinv; [done|].
  cbn [delivers]. unfold bind.
  pose proof (deliver_shell_inv d s Hinv) as H.
  destruct (deliver d s) as [[] s'|h s']; [by apply IH|done].
Qed.

Lemma do_bgfg_shell_inv argv k ds s :
  shell_inv (jobs s) → shell_inv (jobs (final (do_bgfg argv k ds s))).
Proof.
  intros Hinv. unfold do_bgfg.
  destruct argv as [|cmd [|arg more]]; [done..|].
  set (job := match arg with
              | String "%" rest =>
                  match getjobjid (jobs s) (atoi rest) with
                  | Some i => inl i
                  | None => inr (cat ["%"; dec (atoi rest); ": No such job"; NL])
                  end
              | _ =>
                  match getjobpid (jobs s) (atoi arg) with
                  | Some i => inl i
                  | None => inr (cat ["("; dec (atoi arg); "): No such process"; NL])
                  end
              end).
  assert (Hjob : ∀ i, job = inl i →
            ∃ j, jobs s !! i = Some j ∧ (1 ≤ pid j ∨ 1 ≤ jid j)).
  { intros i Hi. subst job. repeat case_match; simplify_eq.
    all: first [ match goal with H : getjobjid _ _ = Some _ |- _ =>
                   apply getjobjid_slot in H as (j & ? & ?); eauto end
               | match goal with H : getjobpid _ _ = Some _ |- _ =>
                   apply getjobpid_slot in H as (j & ? & ?); eauto end ]. }
  destruct job as [i|msg]; [|done].
  destruct (Hjob i eq_refl) as (j & Hj & Hact). rewrite Hj.
  destruct (String.eqb cmd "fg").
  - apply waitfg_shell_inv. cbn [set_jobs jobs].
    assert (Hjobs : ∀ s0, jobs (if k <? 0 then emit (Perror "kill (SIGCONT) error") s0 else s0) = jobs s0)
      by (intros; by destruct (k <? 0)).
    rewrite Hjobs. cbn [emit jobs].
    eapply alter_state_shell_inv; [done|by left|done..].
  - cbn [final set_jobs jobs emit].
    assert (Hjobs : ∀ s0, jobs (if k <? 0 then emit (Perror "kill (SIGCONT) error") s0 else s0) = jobs s0)
      by (intros; by destruct (k <? 0)).
    rewrite Hjobs. cbn [emit jobs].
    eapply alter_state_shell_inv; [done|by right; left|done..].
Qed.

Lemma builtin_cmd_shell_inv argv k ds s :
  shell_inv (jobs s) → shell_inv (jobs (final (builtin_cmd argv k ds s))).
Proof.
  intros Hinv. unfold builtin_cmd. destruct argv as [|cmd argv]; [done|].
  pose proof (do_bgfg_shell_inv (cmd :: argv) k ds s Hinv) as H.
  repeat case_match; try done; unfold bind, ret;
    by destruct (do_bgfg (cmd :: argv) k ds s).
Qed.

Lemma eval_shell_inv cmdline parsed o s :
  shell_inv (jobs s) → shell_inv (jobs (final (eval cmdline parsed o s))).
Proof.
  intros Hinv. unfold eval.
  destruct (cut_at_amp parsed) as [bg [|a argv]]; [done|].
  pose proof (builtin_cmd_shell_inv (a :: argv) (kill_ret o) (arrivals o) s Hinv)
    as H.
  destruct (builtin_cmd (a :: argv) (kill_ret o) (arrivals o) s)
    as [[b rest] s1|h s1]; [|done].
  simpl in H.
  repeat case_match; try done;
    try match goal with
        | Hd : delivers _ ?s0 = _ |- _ =>
            let Hs := fresh in
            assert (Hs : shell_inv (jobs s0))
              by (cbn [set_blocked set_jobs emit emits jobs];
                  (eapply addjob_shell_inv; [| |done]; [done|]);
                  unfold valid_state; auto);
            apply (delivers_shell_inv (at_unblock o)) in Hs; rewrite Hd in Hs
        end;
    try (apply waitfg_shell_inv); try done;
    cbn [set_blocked set_jobs emit emits jobs];
    (eapply addjob_shell_inv; [| |done]; [done|]);
    unfold valid_state; auto.
Qed.

Lemma run_shell_inv_from ins : ∀ s,
  shell_inv (jobs s) → shell_inv (jobs (final (run ins s))).
Proof.
  induction ins as [|[c p o|d] ins IH]; intros s Hinv; simpl; [done|..].
  - pose proof (eval_shell_inv c p o s Hinv) as H.
    destruct (eval c p o s); [by apply IH|done].
  - destruct (deliverable d s); [|by apply IH].
    pose proof (deliver_shell_inv d s Hinv) as H.
    destruct (deliver d s); [by apply IH|done].
Qed.
End ShellInvariant.


(** ** More on the handlers and the waiter *)

Section HandlersMore.
Implicit Types (t : list job_t) (j : job_t) (k p : Z) (s : shell).

(** X10: when the answers of waitpid name different pids and every
    positive one has an entry in the job table, the child-status handler
    returns: it never reaches the NULL dereference. *)
Theorem sigchld_handler_returns w : ∀ s,
  NoDup (w_result <$> w) →
  Forall (λ r, 0 < w_result r → getjobpid (jobs s) (w_result r) ≠ None) w →
  ∃ rest s', sigchld_handler w s = Ret rest s'.
Proof.
  induction w as [|r w IH]; intros s Hnd Hall; [by eexists _, _|].
  apply Forall_cons in Hall as [Hr Hall].
  rewrite fmap_cons in Hnd. apply NoDup_cons in Hnd as [Hfresh Hnd].
  assert (Hrest : ∀ s1, jobs s1 = fst (deletejob (jobs s) (w_result r)) →
            ∃ rest s', sigchld_handler w s1 = Ret rest s').
  { intros s1 Hs1. apply IH; [done|].
    apply Forall_forall. intros r' Hr' Hpos. rewrite Hs1, deletejob_other.
    - rewrite Forall_forall in Hall. by apply Hall.
    - intros Heq. apply Hfresh. rewrite <- Heq.
      apply list_elem_of_fmap. eauto. }
  cbn [sigchld_handler]. destruct (0 <? w_result r) eqn:Hpos.
  2:{ destruct (_ && _); by eexists _, _. }
  apply Z.ltb_lt in Hpos.
  destruct (w_status r) as [code|sig|sig]; [by apply Hrest..|].
  cbn [emit jobs].
  destruct (getjobpid (jobs s) (w_result r)) as [i|] eqn:Hi;
    [by eexists _, _|by destruct (Hr Hpos)].
Qed.

Lemma foldl_delete_lookup pre : ∀ t,
  pids_unique t →
  (∀ r, r ∈ pre →
     getjobpid (foldl (λ t r, fst (deletejob t (w_result r))) t pre)
       (w_result r) = None) ∧
  (∀ q, (∀ r, r ∈ pre → w_result r ≠ q) →
     getjobpid (foldl (λ t r, fst (deletejob t (w_result r))) t pre) q
     = getjobpid t q).
Proof.
  induction pre as [|r0 pre IH]; intros t Huniq; simpl.
  - split; [|done]. intros r Hr. by apply elem_of_nil in Hr.
  - destruct (IH (fst (deletejob t (w_result r0))))
      as [Hgone Hframe]; [by apply deletejob_pids_unique|].
    simpl in Hgone, Hframe. split.
    + intros r Hr. apply elem_of_cons in Hr as [->|Hr]; [|by apply Hgone].
      destruct (decide (w_result r0 ∈ w_result <$> pre)) as [Hin|Hnin].
      * apply list_elem_of_fmap in Hin as (r' & Heq & Hr').
        pose proof (Hgone r' Hr') as H. by rewrite <- Heq in H.
      * rewrite Hframe; [by apply deletejob_removes|].
        intros r' Hr' Heq. apply Hnin. rewrite <- Heq.
        apply list_elem_of_fmap. eauto.
    + intros q Hq. rewrite Hframe.
      * apply deletejob_other. intros ->. by apply (Hq r0); [left|].
      * intros r' Hr'. apply Hq. by right.
Qed.

(** X11: a run of the handler over children that all exited or were
    killed, ended by an answer of waitpid that is not positive, returns
    with none of their pids left in the table, the lookup of every other
    pid unchanged, the flag set if there was any child, and the signal
    mask as it was (pids unique in the table). *)
Theorem sigchld_handler_removes_terminated pre fin more s :
  pids_unique (jobs s) →
  Forall terminated pre → w_result fin ≤ 0 →
  ∃ s', sigchld_handler (pre ++ fin :: more) s = Ret more s' ∧
        (∀ r, r ∈ pre → getjobpid (jobs s') (w_result r) = None) ∧
        (∀ q, (∀ r, r ∈ pre → w_result r ≠ q) →
              getjobpid (jobs s') q = getjobpid (jobs s) q) ∧
        (pre ≠ [] → child_finished s' = 1) ∧
        sigchld_blocked s' = sigchld_blocked s.
Proof.
  intros Huniq Hpre Hfin.
  destruct (sigchld_handler_terminated pre (fin :: more) s)
    as (s1 & -> & Hjobs & Hflag & Hmask); [done|].
  destruct (foldl_delete_lookup pre (jobs s) Huniq) as [Hgone Hframe].
  simpl in Hgone, Hframe. rewrite <- Hjobs in Hgone, Hframe.
  cbn [sigchld_handler].
  assert ((0 <? w_result fin) = false) as -> by (apply Z.ltb_ge; lia).
  destruct (_ && _); eexists; (split; [done|]);
    cbn [emit jobs child_finished sigchld_blocked];
    (split_and!; [done|done| |done]);
    intros Hne; rewrite Hflag; by destruct pre.
Qed.

(** X12: the interrupt and stop handlers do nothing when no job is in
    state [FG].  Otherwise each makes exactly one call of [kill], with
    the signal it was given and, as target, the (positive) pid of the
    first foreground job of the table; when [kill] answers -1 the handler
    reports it on stderr with the value of errno.  The handler does
    nothing else: the state it returns differs from the one it found by
    these events only. *)
Theorem keyboard_handlers_forward sig k e s :
  Forall slot_wf (jobs s) →
  match foreground_jobs (jobs s) with
  | [] =>
      sigint_handler sig k e s = Ret tt s ∧
      sigtstp_handler sig k e s = Ret tt s
  | j :: _ =>
      1 ≤ pid j ∧
      sigint_handler sig k e s =
        Ret tt (emits (forward_events "Error killing process with SIGINT: "
                         (pid j) sig k e) s) ∧
      sigtstp_handler sig k e s =
        Ret tt (emits (forward_events "Error suspending process with SIGSTP: "
                         (pid j) sig k e) s)
  end.
Proof.
  intros Hwf. destruct (foreground_jobs (jobs s)) as [|j rest] eqn:Hfg.
  - apply keyboard_handlers_no_foreground. by rewrite fgpid_head, Hfg.
  - destruct (foreground_head _ j rest Hwf Hfg) as [Hp _].
    split; [done|].
    assert (Hpid : fgpid (jobs s) = pid j) by by rewrite fgpid_head, Hfg.
    unfold sigint_handler, sigtstp_handler, forward_events. rewrite Hpid.
    assert ((pid j =? 0) = false) as -> by (apply Z.eqb_neq; lia).
    unfold emits, emit.
    destruct (k =? -1); split; cbn; rewrite <- ?app_assoc; reflexivity.
Qed.

(** X13: when [waitfg] returns, the flag [child_finished] is non-zero,
    the signals it used up are a prefix of the arrivals, and the last
    thing it did is the confirming [waitpid(pid, NULL, WNOHANG)]. *)
Theorem waitfg_returns_with_flag p ds : ∀ s ds' s',
  waitfg p ds s = Ret ds' s' →
  child_finished s' ≠ 0 ∧
  (∃ used, ds = used ++ ds') ∧
  last (log s') = Some (Confirm p).
Proof.
  assert (Hdone : ∀ (ds ds' : list delivery) (s s' : shell),
            (child_finished s =? 0) = false →
            Ret ds (emit (Confirm p) s) = Ret ds' s' →
            child_finished s' ≠ 0 ∧ (∃ used, ds = used ++ ds') ∧
            last (log s') = Some (Confirm p)).
  { intros ds0 ds' s s' E [= <- <-]. apply Z.eqb_neq in E.
    split_and!; [done|by exists []|]. cbn [emit log]. apply last_snoc. }
  induction ds as [|d ds IH]; intros s ds' s'; simpl.
  - destruct (child_finished s =? 0) eqn:E; [done|]. by apply Hdone.
  - destruct (child_finished s =? 0) eqn:E; [|by apply Hdone].
    destruct (deliver d s) as [[] s1|]; [|done].
    intros (Hflag & (used & ->) & Hlast)%IH.
    split_and!; [done|by exists (d :: used)|done].
Qed.

Lemma deliver_quiet d s :
  quiet d = true →
  ∃ s', deliver d s = Ret tt s' ∧ jobs s' = jobs s ∧
        child_finished s' = child_finished s.
Proof.
  destruct d as [w|k e|k e| |]; try done; intros _; cbn [deliver].
  - unfold sigint_handler. destruct (fgpid _ =? 0); [by eexists|].
    destruct (k =? -1); by eexists.
  - unfold sigtstp_handler. destruct (fgpid _ =? 0); [by eexists|].
    destruct (k =? -1); by eexists.
  - by eexists.
Qed.

(** X14: with the flag at 0, arrivals that are only SIGINT, SIGTSTP or
    SIGUSR1 are handled one by one but never end the wait: [waitfg] is
    still suspended after the last of them, with the table and the flag
    unchanged. *)
Theorem waitfg_sleeps_through_keyboard_signals p ds : ∀ s,
  child_finished s = 0 →
  Forall (λ d, quiet d = true) ds →
  ∃ s', waitfg p ds s = Halt Asleep s' ∧ jobs s' = jobs s ∧
        child_finished s' = 0.
Proof.
  induction ds as [|d ds IH]; intros s Hflag Hq; simpl; rewrite Hflag; simpl.
  - by eexists.
  - apply Forall_cons in Hq as [Hd Hq].
    destruct (deliver_quiet d s Hd) as (s1 & -> & Hj & Hc).
    destruct (IH s1) as (s' & -> & Hj' & Hc'); [congruence|done|].
    exists s'. split_and!; congruence.
Qed.
End HandlersMore.


(** ** The builtin commands *)

Section CommandsMore.
Implicit Types (t : list job_t) (j : job_t) (k p : Z) (s : shell).

(** X15: [fg] or [bg] typed without an argument prints
    "<cmd> command requires PID or %jobid argument" and changes nothing
    else. *)
Theorem fg_bg_without_argument cmdline o s :
  eval cmdline ["fg"] o s
    = Ret (arrivals o) (emit (Print Stdout (usage_msg "fg")) s) ∧
  eval cmdline ["bg"] o s
    = Ret (arrivals o) (emit (Print Stdout (usage_msg "bg")) s).
Proof. split; reflexivity. Qed.

(** X16: a line whose first word is [quit] prints the termination notice
    and exits with status 1, whatever follows on the line. *)
Theorem quit_exits cmdline args o s :
  eval cmdline ("quit" :: args) o s
    = Halt (Exit 1) (emit (Print Stdout quit_msg) s).
Proof.
  unfold eval. cbn [cut_at_amp String.eqb Ascii.eqb Bool.eqb].
  by destruct (cut_at_amp args) as [bg argv].
Qed.

(** X17: the [jobs] builtin prints, for each active job in table order,
    "[jid] (pid) ", then "Running ", "Foreground " or "Stopped ", then
    the command line; it prints nothing else and changes nothing else. *)
Theorem jobs_lists_active_jobs cmdline args o s :
  Forall slot_wf (jobs s) →
  eval cmdline ("jobs" :: args) o s
    = Ret (arrivals o)
        (emits (concat (job_lines <$> filter active (jobs s))) s).
Proof.
  intros Hwf. unfold eval. cbn [cut_at_amp String.eqb Ascii.eqb Bool.eqb].
  destruct (cut_at_amp args) as [bg argv].
  unfold builtin_cmd, bind, ret, listjobs.
  cbn [String.eqb Ascii.eqb Bool.eqb negb Z.eqb].
  by rewrite listjobs_from_active.
Qed.

Lemma do_bgfg_by_pid cmd arg more k ds s :
  bare arg →
  do_bgfg (cmd :: arg :: more) k ds s =
    match getjobpid (jobs s) (atoi arg) with
    | None => Ret ds (emit (Print Stdout (no_such_process_msg (atoi arg))) s)
    | Some i =>
        match jobs s !! i with
        | None => Halt Undefined s
        | Some j =>
            let s1 := emits (cont_events (pid j) k) s in
            if String.eqb cmd "fg" then
              waitfg (pid j) ds (set_jobs (alter (set_state FG) i (jobs s)) s1)
            else
              Ret ds (set_jobs (alter (set_state BG) i (jobs s))
                        (emit (Print Stdout (announce_msg j)) s1))
        end
    end.
Proof.
  intros Hbare. unfold do_bgfg.
  assert (Hsel : ∀ (A : Type) (x : string → A) (y : A),
            match arg with String "%" rest => x rest | _ => y end = y).
  { intros A x y. destruct arg as [|[[] [] [] [] [] [] [] []] rest];
      try reflexivity. destruct Hbare. }
  rewrite Hsel. destruct (getjobpid _ _) as [i|]; [|done].
  destruct (jobs s !! i) as [j|]; [|done].
  unfold cont_events, emits, emit, set_jobs.
  destruct (k <? 0); cbn; rewrite <- ?app_assoc; done.
Qed.

Lemma do_bgfg_by_jid cmd rest more k ds s :
  do_bgfg (cmd :: String "%" rest :: more) k ds s =
    match getjobjid (jobs s) (atoi rest) with
    | None => Ret ds (emit (Print Stdout (no_such_job_msg (atoi rest))) s)
    | Some i =>
        match jobs s !! i with
        | None => Halt Undefined s
        | Some j =>
            let s1 := emits (cont_events (pid j) k) s in
            if String.eqb cmd "fg" then
              waitfg (pid j) ds (set_jobs (alter (set_state FG) i (jobs s)) s1)
            else
              Ret ds (set_jobs (alter (set_state BG) i (jobs s))
                        (emit (Print Stdout (announce_msg j)) s1))
        end
    end.
Proof.
  unfold do_bgfg. destruct (getjobjid _ _) as [i|]; [|done].
  destruct (jobs s !! i) as [j|]; [|done].
  unfold cont_events, emits, emit, set_jobs.
  destruct (k <? 0); cbn; rewrite <- ?app_assoc; done.
Qed.

(** [eval] of a [bg] or [fg] line is [do_bgfg] on its two words. *)
Lemma eval_bgfg cmdline cmd arg o s :
  cmd = "fg" ∨ cmd = "bg" → arg ≠ "&" →
  eval cmdline [cmd; arg] o s =
    do_bgfg [cmd; arg] (kill_ret o) (arrivals o) s.
Proof.
  intros Hcmd Harg. unfold eval.
  assert (cut_at_amp [cmd; arg] = (0, [cmd; arg])) as ->.
  { apply String.eqb_neq in Harg.
    destruct Hcmd as [-> | ->]; cbn [cut_at_amp String.eqb Ascii.eqb Bool.eqb];
      by rewrite Harg. }
  unfold builtin_cmd, bind, ret.
  destruct Hcmd as [-> | ->]; cbn [String.eqb Ascii.eqb Bool.eqb];
    by destruct (do_bgfg _ _ _ s).
Qed.

(** X18: [fg] or [bg] with an argument that does not start with a percent
    sign and whose number, as [atoi] reads it, is the pid of no active
    job (as for an argument that is no number at all, read as 0) prints
    "(pid): No such process" and changes nothing else: no signal is sent
    and the table, the flag and the mask are untouched. *)
Theorem bgfg_unknown_pid cmdline cmd arg o s :
  cmd = "fg" ∨ cmd = "bg" → arg ≠ "&" → bare arg →
  Forall (λ j, active j → pid j ≠ atoi arg) (jobs s) →
  ∃ s', eval cmdline [cmd; arg] o s = Ret (arrivals o) s' ∧
        jobs s' = jobs s ∧
        child_finished s' = child_finished s ∧
        sigchld_blocked s' = sigchld_blocked s ∧
        log s' = log s ++ [Print Stdout (no_such_process_msg (atoi arg))].
Proof.
  intros Hcmd Harg Hbare Hnone.
  rewrite eval_bgfg, do_bgfg_by_pid by done.
  assert (getjobpid (jobs s) (atoi arg) = None) as ->.
  { unfold getjobpid. destruct (atoi arg <? 1) eqn:Hlt; [done|].
    apply Z.ltb_ge in Hlt. apply scan_None.
    eapply Forall_impl; [exact Hnone|]. intros j Hj Heq.
    apply Hj; [|done]. unfold active. lia. }
  by eexists.
Qed.

(** The number after [%], or the pid, is the [int] that [atoi] returns:
    4294967297 names job 1 and 4294967396 names pid 100. *)
Example bg_number_cut_to_int :
  (∃ s', eval (cat ["bg %4294967297"; NL]) ["bg"; "%4294967297"]
           (OS 0 0 0 0 []) demo_state = Ret [] s' ∧
         log s' = log demo_state
                  ++ [Kill (-100) SIGCONT;
                      Print Stdout (cat ["[1] (100) sleep 100 &"; NL])]) ∧
  (∃ s', eval (cat ["bg 4294967396"; NL]) ["bg"; "4294967396"]
           (OS 0 0 0 0 []) demo_state = Ret [] s' ∧
         log s' = log demo_state
                  ++ [Kill (-100) SIGCONT;
                      Print Stdout (cat ["[1] (100) sleep 100 &"; NL])]).
Proof. split; eexists; split; vm_compute; reflexivity. Qed.

(** X19: [bg %jid] on a job of the table sends SIGCONT to the negated pid
    of the job, prints "[jid] (pid) cmdline", sets the state of that slot
    to [BG] and returns without waiting; the flag and the mask are
    unchanged. *)
Theorem bg_resumes_job cmdline rest o s i j :
  getjobjid (jobs s) (atoi rest) = Some i → jobs s !! i = Some j →
  ∃ s', eval cmdline ["bg"; String "%" rest] o s = Ret (arrivals o) s' ∧
        jobs s' = alter (set_state BG) i (jobs s) ∧
        child_finished s' = child_finished s ∧
        sigchld_blocked s' = sigchld_blocked s ∧
        log s' = log s ++ cont_events (pid j) (kill_ret o)
                       ++ [Print Stdout (announce_msg j)].
Proof.
  intros Hi Hj. rewrite eval_bgfg by (auto || done).
  rewrite do_bgfg_by_jid, Hi, Hj. cbn [String.eqb Ascii.eqb Bool.eqb].
  eexists. split; [done|]. cbn. by rewrite <- app_assoc.
Qed.

(** X20: when [child_finished] is already non-zero, [fg %jid] on a job of
    the table sends SIGCONT to the negated pid, sets the slot to [FG] and
    returns at once after the confirming waitpid, using up no arrival. *)
Theorem fg_with_flag_set_returns cmdline rest o s i j :
  child_finished s ≠ 0 →
  getjobjid (jobs s) (atoi rest) = Some i → jobs s !! i = Some j →
  ∃ s', eval cmdline ["fg"; String "%" rest] o s = Ret (arrivals o) s' ∧
        jobs s' = alter (set_state FG) i (jobs s) ∧
        log s' = log s ++ cont_events (pid j) (kill_ret o)
                       ++ [Confirm (pid j)].
Proof.
  intros Hflag Hi Hj. rewrite eval_bgfg by (auto || done).
  rewrite do_bgfg_by_jid, Hi, Hj. cbn [String.eqb Ascii.eqb Bool.eqb].
  cbv zeta. rewrite waitfg_flag_already_set by done.
  eexists. split; [done|]. cbn. by rewrite <- app_assoc.
Qed.

(** X21: the loop of [eval] over the arguments either finds no [&] and
    keeps them all in the foreground, or cuts the vector at the first [&],
    runs in the background and drops everything after it. *)
Theorem cut_at_amp_cases argv :
  (cut_at_amp argv = (0, argv) ∧ "&" ∉ argv) ∨
  (∃ pre rest, argv = pre ++ "&" :: rest ∧ ("&" ∉ pre) ∧
               cut_at_amp argv = (1, pre)).
Proof.
  induction argv as [|a argv IH]; [left; split; [done|apply not_elem_of_nil]|].
  cbn [cut_at_amp]. destruct (String.eqb a "&") eqn:Ha.
  - apply String.eqb_eq in Ha as ->. right. exists [], argv.
    split_and!; [done|apply not_elem_of_nil|done].
  - apply String.eqb_neq in Ha.
    destruct IH as [[-> Hno]|(pre & rest & -> & Hno & ->)].
    + left. split; [done|]. by apply not_elem_of_cons.
    + right. exists (a :: pre), rest. split_and!; [done| |done].
      by apply not_elem_of_cons.
Qed.
End CommandsMore.


(** ** The spawn path *)

Section SpawnMore.
Implicit Types (t : list job_t) (j : job_t) (k p : Z) (s : shell).

Lemma builtin_cmd_other a argv k ds s :
  is_builtin a = false → builtin_cmd (a :: argv) k ds s = Ret (0, ds) s.
Proof.
  unfold is_builtin. intros H.
  apply orb_false_iff in H as [H Hjobs].
  apply orb_false_iff in H as [H Hbg].
  apply orb_false_iff in H as [Hquit Hfg].
  unfold builtin_cmd. by rewrite Hquit, Hfg, Hbg, Hjobs.
Qed.

(** X22: when [fork] fails, [eval] prints "fork error" and returns with
    the table unchanged, the flag reset to 0 and SIGCHLD still blocked. *)
Theorem fork_failure cmdline parsed o s bg a argv :
  cut_at_amp parsed = (bg, a :: argv) → is_builtin a = false →
  0 ≤ block_ret o → fork_ret o < 0 →
  ∃ s', eval cmdline parsed o s = Ret (arrivals o) s' ∧
        jobs s' = jobs s ∧
        sigchld_blocked s' = true ∧
        child_finished s' = 0 ∧
        log s' = log s ++ [Fork (fork_ret o);
                           Print Stderr (cat ["fork error"; NL])].
Proof.
  intros Hcut Hnb Hblock Hfork. unfold eval.
  rewrite Hcut, builtin_cmd_other by done. cbn [negb Z.eqb].
  assert ((block_ret o <? 0) = false) as -> by (apply Z.ltb_ge; lia).
  assert ((fork_ret o <? 0) = true) as -> by (apply Z.ltb_lt; lia).
  eexists. split; [done|]. cbn. by rewrite <- app_assoc.
Qed.

(** The spawn path up to the registration of the job: what [addjob]
    returns when the table has room and the pid is new. *)
Lemma spawn_addjob v t p st cmd :
  shell_inv t → ¬ table_full t → getjobpid t p = None → 1 ≤ p →
  ∃ i k j0,
    addjob v t p st cmd
      = Some (Added (<[i := Job p k st cmd]> t) 1 (added_msg v k p cmd)) ∧
    smallest_free_jid t k ∧ t !! i = Some j0 ∧ pid j0 = 0 ∧
    pid2jid (<[i := Job p k st cmd]> t) p = k ∧
    getjobpid (<[i := Job p k st cmd]> t) p = Some i ∧
    deletejob (<[i := Job p k st cmd]> t) p = (t, 1).
Proof.
  intros Hinv Hroom Hfresh Hp.
  pose proof (shell_inv_table_ok _ Hinv) as Hok.
  destruct Hinv as (_ & Hwf & Huniq).
  destruct (addjob_room v t p st cmd Hok Huniq Hp Hroom) as (a & Ha & Hret).
  destruct (addjob_success _ _ _ _ _ _ Hok Ha Hret)
    as (i & k & j0 & _ & Hk & Hj0 & Hpid0 & _ & ->).
  assert (Hi : (i < length t)%nat) by by eapply lookup_lt_Some.
  pose proof (scan_inserted t i p k st cmd Hi Hp Hfresh) as Hscan.
  exists i, k, j0. split_and!; [done..| | |].
  - rewrite (pid2jid_scan _ p i (Job p k st cmd)); [done..| |done].
    by apply list_lookup_insert_eq.
  - unfold getjobpid.
    by assert ((p <? 1) = false) as -> by (apply Z.ltb_ge; lia).
  - apply (addjob_undone v t p st cmd
             (Added (<[i := Job p k st cmd]> t) 1 (added_msg v k p cmd)) Hok);
      [|done..].
    eapply Forall_impl; [done|]. intros j [->|(? & _)] Hz; [done|lia].
Qed.

(** [eval] of a background command, up to the return of the unblock:
    the handlers of [at_unblock] run on the table that holds the new job,
    and the announcement reads the table they leave. *)
Lemma eval_background cmdline parsed o s a argv i k :
  cut_at_amp parsed = (1, a :: argv) → is_builtin a = false →
  0 ≤ block_ret o → 1 ≤ fork_ret o → 0 ≤ unblock_ret o →
  addjob (verbose s) (jobs s) (fork_ret o) BG cmdline
    = Some (Added (<[i := Job (fork_ret o) k BG cmdline]> (jobs s)) 1
              (added_msg (verbose s) k (fork_ret o) cmdline)) →
  eval cmdline parsed o s =
    (let! _ := delivers (at_unblock o) in
     λ s', Ret (arrivals o)
             (emit (Print Stdout
                      (cat ["["; dec (pid2jid (jobs s') (fork_ret o)); "] (";
                            dec (fork_ret o); ") "; cmdline])) s'))
      (Shell (<[i := Job (fork_ret o) k BG cmdline]> (jobs s)) 0
         (verbose s) (ready s) false
         (log s ++ spawn_events (verbose s) (fork_ret o) k cmdline)).
Proof.
  intros Hcut Hnb Hblock Hfork Hunblock Ha.
  unfold eval. rewrite Hcut, builtin_cmd_other by done. cbn [negb Z.eqb].
  assert ((block_ret o <? 0) = false) as -> by (apply Z.ltb_ge; lia).
  assert ((fork_ret o <? 0) = false) as -> by (apply Z.ltb_ge; lia).
  assert ((fork_ret o =? 0) = false) as -> by (apply Z.eqb_neq; lia).
  cbn [set_blocked set_child_finished emit jobs verbose]. rewrite Ha.
  cbn [add_ret add_jobs add_out Z.eqb].
  assert ((unblock_ret o <? 0) = false) as -> by (apply Z.ltb_ge; lia).
  unfold bind, spawn_events, emits, set_jobs, set_blocked. cbn.
  by rewrite <- app_assoc.
Qed.

(** X23: a background command with room in the table and a new pid is
    registered in a free slot in state [BG] under the smallest free jid.
    When no handler runs between the unblocking of SIGCHLD and the
    announcement, the job is announced as "[jid] (pid) cmdline" and
    [eval] returns with the job in the table, the flag at 0 and SIGCHLD
    unblocked, without using up any arrival. *)
Theorem background_launch cmdline parsed o s a argv :
  shell_inv (jobs s) → ¬ table_full (jobs s) →
  getjobpid (jobs s) (fork_ret o) = None →
  cut_at_amp parsed = (1, a :: argv) → is_builtin a = false →
  0 ≤ block_ret o → 1 ≤ fork_ret o → 0 ≤ unblock_ret o →
  at_unblock o = [] →
  ∃ s' i k,
    eval cmdline parsed o s = Ret (arrivals o) s' ∧
    smallest_free_jid (jobs s) k ∧
    jobs s' = <[i := Job (fork_ret o) k BG cmdline]> (jobs s) ∧
    pid <$> (jobs s !! i) = Some 0 ∧
    sigchld_blocked s' = false ∧
    child_finished s' = 0 ∧
    log s' = log s ++ spawn_events (verbose s) (fork_ret o) k cmdline
                   ++ [Print Stdout
                         (announce_msg (Job (fork_ret o) k BG cmdline))].
Proof.
  intros Hinv Hroom Hfresh Hcut Hnb Hblock Hfork Hunblock Hnone.
  destruct (spawn_addjob (verbose s) (jobs s) (fork_ret o) BG cmdline
              Hinv Hroom Hfresh Hfork)
    as (i & k & j0 & Ha & Hk & Hj0 & Hpid0 & Hjid & _ & _).
  rewrite (eval_background _ _ _ _ a argv i k) by done.
  rewrite Hnone. unfold bind. cbn [delivers ret jobs].
  eexists _, i, k. split; [reflexivity|].
  split_and!; [done|done|by rewrite Hj0, <- Hpid0|done|done|].
  unfold announce_msg. cbn. rewrite Hjid, <- !app_assoc. done.
Qed.



(** The handler on a stopped child that has an entry. *)
Lemma sigchld_handler_one_stopped s p sig i more :
  0 < p → getjobpid (jobs s) p = Some i →
  sigchld_handler (Wait p (Stopped sig) 0 :: more) s =
    Ret more
      (Shell (alter (set_state ST) i (jobs s)) 1 (verbose s) (ready s)
         (sigchld_blocked s)
         (log s ++ [Reap p] ++ stop_events (pid2jid (jobs s) p) p sig)).
Proof.
  intros Hp Hi. cbn [sigchld_handler w_result w_status].
  apply Z.ltb_lt in Hp as ->. cbn [emit jobs]. rewrite Hi.
  unfold stop_events, emit, set_jobs, set_child_finished. cbn.
  rewrite pid2jid_alter_state, <- app_assoc. done.
Qed.

(** [eval] of a foreground command, up to the call of [waitfg]. *)
Lemma eval_foreground cmdline parsed o s a argv i k :
  cut_at_amp parsed = (0, a :: argv) → is_builtin a = false →
  0 ≤ block_ret o → 1 ≤ fork_ret o → 0 ≤ unblock_ret o →
  addjob (verbose s) (jobs s) (fork_ret o) FG cmdline
    = Some (Added (<[i := Job (fork_ret o) k FG cmdline]> (jobs s)) 1
              (added_msg (verbose s) k (fork_ret o) cmdline)) →
  eval cmdline parsed o s =
    (delivers (at_unblock o) >> waitfg (fork_ret o) (arrivals o))
      (Shell (<[i := Job (fork_ret o) k FG cmdline]> (jobs s)) 0
         (verbose s) (ready s) false
         (log s ++ spawn_events (verbose s) (fork_ret o) k cmdline)).
Proof.
  intros Hcut Hnb Hblock Hfork Hunblock Ha.
  unfold eval. rewrite Hcut, builtin_cmd_other by done. cbn [negb Z.eqb].
  assert ((block_ret o <? 0) = false) as -> by (apply Z.ltb_ge; lia).
  assert ((fork_ret o <? 0) = false) as -> by (apply Z.ltb_ge; lia).
  assert ((fork_ret o =? 0) = false) as -> by (apply Z.eqb_neq; lia).
  cbn [set_blocked set_child_finished emit jobs verbose]. rewrite Ha.
  cbn [add_ret add_jobs add_out Z.eqb].
  assert ((unblock_ret o <? 0) = false) as -> by (apply Z.ltb_ge; lia).
  unfold bind, spawn_events, emits, set_jobs, set_blocked. cbn.
  by rewrite <- app_assoc.
Qed.

(** A signal handled as SIGCHLD is unblocked, with none arriving during
    [sigsuspend] before it, and the same signal as the first arrival
    during [sigsuspend] lead the waiter to the same place whenever its
    handler sets the flag. *)
Lemma waitfg_first_signal p d ds ds0 ds1 s s1 :
  child_finished s = 0 → deliver d s = Ret tt s1 → child_finished s1 ≠ 0 →
  (ds0 = [] ∧ ds1 = d :: ds) ∨ (ds0 = [d] ∧ ds1 = ds) →
  (delivers ds0 >> waitfg p ds1) s = Ret ds (emit (Confirm p) s1).
Proof.
  intros Hflag Hd Hset [[-> ->]|[-> ->]]; unfold bind; cbn [delivers].
  - unfold ret. cbn [waitfg]. apply Z.eqb_eq in Hflag as ->. rewrite Hd.
    by apply waitfg_flag_already_set.
  - unfold bind, ret. rewrite Hd. by apply waitfg_flag_already_set.
Qed.


(** X25: a foreground command is registered and waited for; when the
    SIGCHLD reporting that its child stopped is the first signal handled
    after the registration, as SIGCHLD is unblocked or as the first
    arrival during [sigsuspend], [eval] returns with the job kept in its
    slot in state [ST], the stopped-by-signal message printed and the
    flag set. *)
Theorem foreground_job_stops cmdline parsed o s a argv sig more ds :
  shell_inv (jobs s) → ¬ table_full (jobs s) →
  getjobpid (jobs s) (fork_ret o) = None →
  cut_at_amp parsed = (0, a :: argv) → is_builtin a = false →
  0 ≤ block_ret o → 1 ≤ fork_ret o → 0 ≤ unblock_ret o →
  (at_unblock o = [] ∧
   arrivals o = OnChld (Wait (fork_ret o) (Stopped sig) 0 :: more) :: ds) ∨
  (at_unblock o = [OnChld (Wait (fork_ret o) (Stopped sig) 0 :: more)] ∧
   arrivals o = ds) →
  ∃ s' i k,
    eval cmdline parsed o s = Ret ds s' ∧
    smallest_free_jid (jobs s) k ∧
    jobs s' = <[i := Job (fork_ret o) k ST cmdline]> (jobs s) ∧
    pid <$> (jobs s !! i) = Some 0 ∧
    child_finished s' = 1 ∧
    sigchld_blocked s' = false ∧
    log s' = log s ++ spawn_events (verbose s) (fork_ret o) k cmdline
                   ++ [Reap (fork_ret o)]
                   ++ stop_events k (fork_ret o) sig
                   ++ [Confirm (fork_ret o)].
Proof.
  intros Hinv Hroom Hfresh Hcut Hnb Hblock Hfork Hunblock Harr.
  destruct (spawn_addjob (verbose s) (jobs s) (fork_ret o) FG cmdline
              Hinv Hroom Hfresh Hfork)
    as (i & k & j0 & Ha & Hk & Hj0 & Hpid0 & Hjid & Hget & _).
  assert (Hi : (i < length (jobs s))%nat) by by eapply lookup_lt_Some.
  rewrite (eval_foreground _ _ _ _ a argv i k) by done.
  erewrite waitfg_first_signal; [|done| |idtac|exact Harr].
  2: { cbn [deliver]. unfold bind, ret.
       rewrite (sigchld_handler_one_stopped _ _ _ i) by (done || lia).
       reflexivity. }
  2: done.
  cbn [jobs verbose ready sigchld_blocked log].
  eexists _, i, k. split; [reflexivity|].
  split_and!; [done| |by rewrite Hj0, <- Hpid0|done|done|].
  - cbn [emit jobs]. apply list_eq. intros n.
    destruct (decide (n = i)) as [->|Hne].
    + rewrite list_lookup_alter_eq, !list_lookup_insert_eq by done. done.
    + by rewrite list_lookup_alter_ne, !list_lookup_insert_ne.
  - unfold spawn_events. cbn [emit log]. rewrite Hjid.
    repeat (rewrite <- app_assoc; cbn [app]). reflexivity.
Qed.
End SpawnMore.

Section SpawnFailures.
Implicit Types (t : list job_t) (j : job_t) (k p : Z) (s : shell).

(** X27: when blocking SIGCHLD fails, [eval] prints "sigprocmask error"
    and returns at once: nothing is forked and no other state changes. *)
Theorem block_failure cmdline parsed o s bg a argv :
  cut_at_amp parsed = (bg, a :: argv) → is_builtin a = false →
  block_ret o < 0 →
  eval cmdline parsed o s
    = Ret (arrivals o)
        (emit (Print Stderr (cat ["sigprocmask error"; NL])) s).
Proof.
  intros Hcut Hnb Hblock. unfold eval.
  rewrite Hcut, builtin_cmd_other by done. cbn [negb Z.eqb].
  by assert ((block_ret o <? 0) = true) as -> by (apply Z.ltb_lt; lia).
Qed.

(** X26: on a table with no free jid, a command that is not a builtin is
    still forked; [eval] prints the table-full message and "Failed to add
    job", leaves the table unchanged and returns with SIGCHLD still
    blocked. *)
Theorem spawn_on_full_table cmdline parsed o s bg a argv :
  length (jobs s) = MAXJOBS → table_full (jobs s) →
  cut_at_amp parsed = (bg, a :: argv) → is_builtin a = false →
  0 ≤ block_ret o → 1 ≤ fork_ret o →
  ∃ s', eval cmdline parsed o s = Ret (arrivals o) s' ∧
        jobs s' = jobs s ∧
        sigchld_blocked s' = true ∧
        child_finished s' = 0 ∧
        log s' = log s ++ [Fork (fork_ret o);
                           Print Stdout full_msg;
                           Print Stderr (cat ["Failed to add job"; NL])].
Proof.
  intros Hlen Hfull Hcut Hnb Hblock Hfork.
  destruct (table_full_ok _ Hlen Hfull) as [_ Hok].
  assert (Hadd : ∀ st, addjob (verbose s) (jobs s) (fork_ret o) st cmdline
                       = Some (Added (jobs s) 0 [full_msg])).
  { intros st.
    destruct (addjob_cases (verbose s) (jobs s) (fork_ret o) st cmdline Hok)
      as (a' & -> & [[Hp _]|[(_ & _ & ->)|(_ & k & Hk & _)]]);
      [lia|done|by destruct (smallest_free_jid_not_full (jobs s) k Hk)]. }
  unfold eval. rewrite Hcut, builtin_cmd_other by done. cbn [negb Z.eqb].
  assert ((block_ret o <? 0) = false) as -> by (apply Z.ltb_ge; lia).
  assert ((fork_ret o <? 0) = false) as -> by (apply Z.ltb_ge; lia).
  assert ((fork_ret o =? 0) = false) as -> by (apply Z.eqb_neq; lia).
  cbn [set_blocked set_child_finished emit jobs verbose]. rewrite !Hadd.
  cbn [add_ret add_jobs add_out Z.eqb].
  destruct (bg =? 0); (eexists; split; [reflexivity|]);
    (split_and!; [done..|]); cbn; rewrite <- !app_assoc; reflexivity.
Qed.
End SpawnFailures.


(** ** Command-line tokenization *)

Section Parseline.
Implicit Types (s buf rest : string) (c : ascii).

Lemma append_assoc' s1 s2 s3 : (s1 +++ s2) +++ s3 = s1 +++ s2 +++ s3.
Proof. induction s1 as [|a s1 IH]; simpl; [done|by rewrite IH]. Qed.

Lemma length_append' s1 s2 :
  String.length (s1 +++ s2) = (String.length s1 + String.length s2)%nat.
Proof. induction s1 as [|a s1 IH]; simpl; [done|by rewrite IH]. Qed.

Lemma replace_last_snoc s c : replace_last (s +++ String c "") = s +++ " ".
Proof.
  induction s as [|a s IH]; [done|].
  simpl. rewrite IH. by destruct s.
Qed.

Lemma skip_blanks_other a buf :
  a ≠ " "%char → skip_blanks (String a buf) = String a buf.
Proof.
  intros Hne. destruct a as [[] [] [] [] [] [] [] []]; try reflexivity.
  congruence.
Qed.

Lemma skip_blanks_length buf :
  (String.length (skip_blanks buf) ≤ String.length buf)%nat.
Proof.
  induction buf as [|a buf IH]; [done|].
  destruct (ascii_dec a " ") as [->|Hne].
  - change (skip_blanks (String " " buf)) with (skip_blanks buf).
    simpl String.length. lia.
  - by rewrite skip_blanks_other.
Qed.

Lemma next_delim_other a buf :
  a ≠ "'"%char → next_delim (String a buf) = strchr " " (String a buf).
Proof.
  intros Hne. destruct a as [[] [] [] [] [] [] [] []]; try reflexivity.
  congruence.
Qed.

Lemma strchr_length c buf arg rest :
  strchr c buf = Some (arg, rest) →
  String.length buf = (String.length arg + 1 + String.length rest)%nat.
Proof.
  revert arg. induction buf as [|a buf IH]; intros arg; simpl; [done|].
  destruct (Ascii.eqb a c).
  - intros [= <- <-]. simpl. lia.
  - destruct (strchr c buf) as [[b r]|]; [|done].
    intros [= <- <-]. simpl. rewrite (IH b eq_refl). lia.
Qed.

Lemma next_delim_length buf arg rest :
  next_delim buf = Some (arg, rest) →
  (String.length rest < String.length buf)%nat.
Proof.
  destruct buf as [|a buf]; [done|].
  destruct (ascii_dec a "'") as [->|Hne].
  - simpl. intros H%strchr_length. lia.
  - rewrite next_delim_other by done. intros H%strchr_length. lia.
Qed.

(** Fuel above the length of the buffer is never used up. *)
Lemma tokens_fuel f1 : ∀ f2 buf,
  (String.length buf < f1)%nat → (String.length buf < f2)%nat →
  tokens f1 buf = tokens f2 buf.
Proof.
  induction f1 as [|f1 IH]; intros f2 buf H1 H2; [lia|].
  destruct f2 as [|f2]; [lia|]. simpl.
  destruct (next_delim (skip_blanks buf)) as [[arg rest]|] eqn:E; [|done].
  f_equal. apply next_delim_length in E.
  pose proof (skip_blanks_length buf). apply IH; lia.
Qed.

Lemma strchr_found c s rest :
  has_char c s = false → strchr c (s +++ String c rest) = Some (s, rest).
Proof.
  induction s as [|a s IH]; simpl.
  - by rewrite Ascii.eqb_refl.
  - intros [Ha Hs]%orb_false_iff. rewrite Ha, (IH Hs). done.
Qed.

Lemma strchr_absent c s : has_char c s = false → strchr c s = None.
Proof.
  induction s as [|a s IH]; simpl; [done|].
  intros [Ha Hs]%orb_false_iff. by rewrite Ha, (IH Hs).
Qed.

Lemma has_char_append c s t :
  has_char c (s +++ t) = has_char c s || has_char c t.
Proof. induction s as [|a s IH]; simpl; [done|]. by rewrite IH, orb_assoc. Qed.

(** One turn of the loop on an argument as typed. *)
Lemma tokens_word f w rest :
  word_ok w = true →
  tokens (S f) (show w +++ String " " rest) = text w :: tokens f (String " " rest)
  ∨ tokens (S f) (show w +++ String " " rest) = text w :: tokens f rest.
Proof.
  destruct w as [s|s]; simpl show; simpl text.
  - destruct s as [|a s]; [done|]. cbn [word_ok].
    intros [Hq Hsp]%andb_true_iff. right.
    apply negb_true_iff in Hq, Hsp.
    assert (a ≠ "'"%char) by (intros ->; by rewrite Ascii.eqb_refl in Hq).
    assert (a ≠ " "%char).
    { intros ->. simpl in Hsp. discriminate. }
    cbn [tokens]. cbn [String.append]. rewrite skip_blanks_other by done.
    rewrite next_delim_other by done.
    change (String a (s +++ String " " rest))
      with (String a s +++ String " " rest).
    by rewrite strchr_found.
  - cbn [word_ok]. intros Hq%negb_true_iff. left.
    cbn [tokens String.append].
    rewrite skip_blanks_other by done. cbn [next_delim].
    rewrite append_assoc'. cbn [String.append].
    by rewrite strchr_found.
Qed.

Lemma tokens_blank f rest : tokens (S f) (String " " rest) = tokens (S f) rest.
Proof. reflexivity. Qed.

Lemma spaced_length l tail :
  (String.length tail ≤ String.length (spaced l tail))%nat.
Proof.
  induction l as [|x l IH]; simpl; [done|].
  rewrite length_append'. simpl. lia.
Qed.

Lemma tokens_spaced ws : ∀ tail f,
  Forall (λ w, word_ok w = true) ws →
  (String.length (spaced (show <$> ws) tail) < f)%nat →
  tokens f (spaced (show <$> ws) tail) =
    (text <$> ws) ++ tokens (S (String.length tail)) tail.
Proof.
  induction ws as [|w ws IH]; intros tail f Hok Hf.
  - cbn [fmap list_fmap spaced app] in *. apply tokens_fuel; lia.
  - apply Forall_cons in Hok as [Hw Hok]. destruct f as [|f]; [lia|].
    cbn [fmap list_fmap spaced] in *. rewrite length_append' in Hf.
    simpl in Hf.
    destruct (tokens_word f w (spaced (show <$> ws) tail) Hw) as [->| ->].
    + destruct f as [|f]; [lia|]. rewrite tokens_blank.
      cbn [app]. f_equal. apply IH; [done|lia].
    + cbn [app]. f_equal. apply IH; [done|lia].
Qed.

Lemma concat_spaced x l :
  String.concat " " (x :: l) +++ " " = spaced (x :: l) "".
Proof.
  revert x. induction l as [|y l IH]; intros x.
  - simpl. done.
  - change (String.concat " " (x :: y :: l))
      with (x +++ " " +++ String.concat " " (y :: l)).
    rewrite !append_assoc'. cbn [spaced]. f_equal. simpl. f_equal. apply IH.
Qed.

Lemma concat_spaced_tail l x tail :
  String.concat " " (l ++ [x]) +++ tail = spaced l (x +++ tail).
Proof.
  induction l as [|y l IH]; [done|].
  assert (String.concat " " ((y :: l) ++ [x])
          = y +++ " " +++ String.concat " " (l ++ [x])) as ->.
  { simpl. by destruct (l ++ [x]) eqn:E; [destruct l|]. }
  rewrite !append_assoc'. cbn [spaced]. f_equal. simpl. f_equal. apply IH.
Qed.

(** X28: round trip of [parseline].  For arguments typed bare (not empty,
    without a space, not starting with a quote) or between single quotes
    (without a quote), separated by single spaces and ended by a newline,
    [parseline] returns exactly their texts, within the bounds of
    [MAXLINE] and [MAXARGS]. *)
Theorem parseline_typed_line ws :
  Forall (λ w, word_ok w = true) ws →
  (String.length (typed_line ws) < MAXLINE)%nat →
  (length ws < MAXARGS)%nat →
  parseline (typed_line ws) = Some (text <$> ws).
Proof.
  intros Hok Hlen Hargs. unfold parseline.
  assert ((MAXLINE <=? String.length (typed_line ws))%nat = false) as ->
    by (apply Nat.leb_gt; lia).
  unfold typed_line in *. unfold NL in *. rewrite replace_last_snoc.
  assert (tokens (S (String.length (String.concat " " (show <$> ws)
                                      +++ String "010" "")))
            (String.concat " " (show <$> ws) +++ " ") = text <$> ws) as Htok.
  { rewrite length_append'. destruct ws as [|w ws]; [done|].
    pose proof (concat_spaced (show w) (show <$> ws)) as Hsp.
    change (show w :: (show <$> ws)) with (show <$> w :: ws) in Hsp.
    rewrite Hsp, (tokens_spaced (w :: ws) ""); [by rewrite app_nil_r|done|].
    rewrite <- Hsp, length_append'. simpl. lia. }
  destruct (String.concat " " (show <$> ws) +++ String "010" "") eqn:E.
  { by destruct (String.concat " " (show <$> ws)). }
  rewrite Htok, length_fmap.
  by assert ((MAXARGS <=? length ws)%nat = false) as -> by (apply Nat.leb_gt; lia).
Qed.

(** X29: an argument that opens a quote which is never closed is dropped
    by [parseline], together with everything after it on the line; the
    arguments before it are returned. *)
Theorem parseline_unclosed_quote ws junk :
  Forall (λ w, word_ok w = true) ws →
  has_char "'" junk = false →
  (String.length (typed_line (ws ++ [Plain (String "'" junk)])) < MAXLINE)%nat →
  (length ws < MAXARGS)%nat →
  parseline (typed_line (ws ++ [Plain (String "'" junk)])) = Some (text <$> ws).
Proof.
  intros Hok Hjunk Hlen Hargs. unfold parseline.
  assert ((MAXLINE <=? String.length
             (typed_line (ws ++ [Plain (String "'" junk)])))%nat = false) as ->
    by (apply Nat.leb_gt; lia).
  unfold typed_line in *. unfold NL in *. rewrite replace_last_snoc.
  rewrite fmap_app in *.
  change (show <$> [Plain (String "'" junk)]) with [String "'" junk] in *.
  rewrite length_append' in *.
  assert (tokens (S (String.length
                       (String.concat " "
                          ((show <$> ws) ++ [String "'" junk]))
                     + String.length (String "010" "")))
            (String.concat " "
               ((show <$> ws) ++ [String "'" junk]) +++ " ")
          = text <$> ws) as Htok.
  { rewrite concat_spaced_tail.
    rewrite (tokens_spaced ws); [|done|].
    - cbn [tokens String.append]. rewrite skip_blanks_other by done.
      cbn [next_delim]. rewrite strchr_absent; [by rewrite app_nil_r|].
      rewrite has_char_append, Hjunk. done.
    - rewrite <- concat_spaced_tail, length_append'. cbn [String.length]. lia. }
  destruct (String.concat " " _ +++ String "010" "") eqn:E.
  { by destruct (String.concat " " _). }
  rewrite Htok, length_fmap.
  by assert ((MAXARGS <=? length ws)%nat = false) as -> by (apply Nat.leb_gt; lia).
Qed.

Lemma skip_blanks_blanks n : skip_blanks (blanks n) = "".
Proof. induction n; done. Qed.

Lemma blanks_snoc n : blanks n +++ " " = blanks (S n).
Proof. induction n as [|n IH]; simpl; [done|]. by rewrite IH. Qed.

Lemma length_blanks n : String.length (blanks n) = n.
Proof. induction n; simpl; auto. Qed.

Lemma parseline_blank n :
  (S n < MAXLINE)%nat → parseline (blanks n +++ NL) = Some [].
Proof.
  intros Hn. unfold parseline, NL.
  rewrite length_append', length_blanks.
  assert ((MAXLINE <=? n + String.length (String "010" ""))%nat = false) as ->
    by (apply Nat.leb_gt; simpl; lia).
  rewrite replace_last_snoc, blanks_snoc.
  destruct (blanks n +++ String "010" "") eqn:E; [by destruct n|].
  cbn [tokens]. rewrite skip_blanks_blanks. done.
Qed.

(** X30: a line of spaces and a newline parses to no argument and [eval]
    returns without changing the shell state. *)
Theorem blank_line_is_ignored n o (sh : shell) :
  (S n < MAXLINE)%nat →
  eval_cmdline (blanks n +++ NL) o sh = Ret (arrivals o) sh.
Proof. intros Hn. unfold eval_cmdline. by rewrite parseline_blank. Qed.
End Parseline.


(** ** The properties above at concrete inputs *)

Section Witnesses.

Lemma jobs0_not_full : ¬ table_full jobs0.
Proof.
  intros H. destruct (H 1) as (j & Hj & Hact & _); [unfold MAXJOBS; lia|].
  apply Hact. unfold jobs0, initjobs in Hj.
  apply list_elem_of_In, in_map_iff in Hj as (? & <- & _). done.
Qed.

Lemma recycle_table_ok : table_ok recycle_table.
Proof.
  apply (apply_ops_table_ok 0 recycle_ops jobs0 recycle_table
           jobs0_table_ok eq_refl).
Qed.

Lemma recycle_table_unique : jids_unique recycle_table.
Proof.
  apply (apply_ops_jids_unique 0 recycle_ops jobs0 recycle_table
           jobs0_table_ok jobs0_jids_unique eq_refl).
Qed.

Lemma recycle_table_clean : Forall slot_clean recycle_table.
Proof.
  apply (apply_ops_clean 0 recycle_ops jobs0 recycle_table
           jobs0_table_ok jobs0_clean eq_refl).
Qed.

Lemma demo_state_inv : shell_inv (jobs demo_state).
Proof. apply run_shell_inv_from, jobs0_shell_inv. Qed.

Lemma fg_waiting_inv : shell_inv (jobs fg_waiting).
Proof.
  exact (eval_shell_inv (cat ["sleep 100"; NL]) ["sleep"; "100"]
           (OS 0 100 0 0 []) shell0 jobs0_shell_inv).
Qed.

Lemma jobs0_pids_unique : pids_unique jobs0.
Proof.
  intros i i' j j' Hi _ Hact _. exfalso. apply Hact.
  apply list_elem_of_lookup_2 in Hi. unfold jobs0, initjobs in Hi.
  apply list_elem_of_In, in_map_iff in Hi as (? & <- & _). done.
Qed.

Lemma insert_pids_unique (t : list job_t) i p k st cmd :
  pids_unique t → Forall (λ j, pid j ≠ p) t →
  pids_unique (<[i := Job p k st cmd]> t).
Proof.
  intros Huniq Hnew i1 i2 j1 j2 H1 H2 Hact Hpid.
  apply list_lookup_insert_Some in H1 as [(-> & <- & ?)|[? H1]];
    apply list_lookup_insert_Some in H2 as [(-> & <- & ?)|[? H2]];
    simpl in *; try done.
  - eapply Forall_lookup_1 in Hnew; [|done]. by destruct Hnew.
  - eapply Forall_lookup_1 in Hnew; [|exact H1]. by destruct Hnew.
  - by eapply Huniq.
Qed.

Lemma fg_waiting_pids_unique : pids_unique (jobs fg_waiting).
Proof.
  apply insert_pids_unique; [apply jobs0_pids_unique|].
  apply (bool_decide_unpack _). vm_compute. reflexivity.
Qed.

Lemma crowded_state_full : table_full (jobs crowded_state).
Proof.
  assert (jobs crowded_state =
          (λ n, Job (100 + Z.of_nat n) (Z.of_nat n) BG (cat ["sleep 100 &"; NL]))
            <$> seq 1 MAXJOBS) as -> by (vm_compute; reflexivity).
  intros k Hk. exists (Job (100 + k) k BG (cat ["sleep 100 &"; NL])).
  split_and!; [|unfold active; simpl; lia|done].
  apply list_elem_of_fmap. exists (Z.to_nat k).
  split; [f_equal; lia|]. apply elem_of_seq. unfold MAXJOBS in *. lia.
Qed.

Lemma addjob_succeeds_iff_witness :
  add_ret recycle_added = 1 ↔ 1 ≤ 103 ∧ ¬ table_full recycle_table.
Proof.
  apply (addjob_succeeds_iff 0 0 recycle_ops recycle_table 103 BG "d"
           recycle_added); reflexivity.
Defined.

Lemma addjob_then_lookup_witness :
  ∃ i k, add_jobs recycle_added !! i = Some (Job 103 k BG "d") ∧
         getjobpid (add_jobs recycle_added) 103 = Some i ∧
         getjobjid (add_jobs recycle_added) k = Some i ∧
         pid2jid (add_jobs recycle_added) 103 = k.
Proof.
  apply (addjob_then_lookup 0 recycle_table 103 BG "d" recycle_added
           recycle_table_ok); reflexivity.
Defined.

Lemma addjob_then_deletejob_witness :
  deletejob (add_jobs recycle_added) 103 = (recycle_table, 1).
Proof.
  apply (addjob_then_deletejob 0 recycle_table 103 BG "d" recycle_added
           recycle_table_ok recycle_table_clean); reflexivity.
Defined.

Lemma getjobjid_exact_witness :
  getjobjid recycle_table 3 = Some 2%nat ↔
  ∃ j, recycle_table !! 2%nat = Some j ∧ active j ∧ jid j = 3.
Proof.
  apply (getjobjid_exact recycle_table 3 2 recycle_table_ok
           recycle_table_unique).
Defined.

Lemma pid2jid_agrees_with_getjobpid_witness :
  (getjobpid recycle_table 102 = None ↔ pid2jid recycle_table 102 = 0) ∧
  ∀ i j, getjobpid recycle_table 102 = Some i → recycle_table !! i = Some j →
         pid j = 102 ∧ pid2jid recycle_table 102 = jid j ∧ 1 ≤ jid j.
Proof.
  apply (pid2jid_agrees_with_getjobpid recycle_table 102 recycle_table_ok).
Defined.
End Witnesses.

Section Witnesses2.

Lemma fgpid_foreground_witness :
  (fgpid (jobs fg_waiting) = 0 ↔ foreground_jobs (jobs fg_waiting) = []) ∧
  ∀ j rest, foreground_jobs (jobs fg_waiting) = j :: rest →
            fgpid (jobs fg_waiting) = pid j ∧ 1 ≤ pid j ∧
            getjobpid (jobs fg_waiting) (pid j) ≠ None.
Proof.
  apply (fgpid_foreground (jobs fg_waiting)
           (proj1 (proj2 fg_waiting_inv))).
Defined.

Lemma sigchld_handler_returns_witness :
  ∃ rest s',
    sigchld_handler [Wait 101 (Exited 0) 0; Wait 100 (Stopped 19) 0]
      demo_state = Ret rest s'.
Proof.
  apply (sigchld_handler_returns
           [Wait 101 (Exited 0) 0; Wait 100 (Stopped 19) 0] demo_state).
  - apply (bool_decide_unpack _). vm_compute. reflexivity.
  - repeat constructor; intros _; vm_compute; discriminate.
Defined.

Lemma sigchld_handler_removes_terminated_witness :
  ∃ s', sigchld_handler
          ([Wait 100 (Signaled 2) 0] ++ Wait (-1) (Exited 0) 10 :: [])
          fg_waiting = Ret [] s' ∧
        (∀ r, r ∈ [Wait 100 (Signaled 2) 0] →
              getjobpid (jobs s') (w_result r) = None) ∧
        (∀ q, (∀ r, r ∈ [Wait 100 (Signaled 2) 0] → w_result r ≠ q) →
              getjobpid (jobs s') q = getjobpid (jobs fg_waiting) q) ∧
        ([Wait 100 (Signaled 2) 0] ≠ [] → child_finished s' = 1) ∧
        sigchld_blocked s' = sigchld_blocked fg_waiting.
Proof.
  apply (sigchld_handler_removes_terminated
           [Wait 100 (Signaled 2) 0] (Wait (-1) (Exited 0) 10) [] fg_waiting
           fg_waiting_pids_unique).
  - repeat constructor. intros sig. discriminate.
  - simpl. lia.
Defined.

(** With pid 100 in the foreground and a [kill] that fails with errno 3
    (ESRCH). *)
Lemma keyboard_handlers_forward_witness :
  1 ≤ 100 ∧
  sigint_handler SIGINT (-1) 3 fg_waiting =
    Ret tt (emits [Kill 100 SIGINT;
                   Print Stderr
                     (cat ["Error killing process with SIGINT: 3"; NL])]
              fg_waiting) ∧
  sigtstp_handler SIGTSTP (-1) 3 fg_waiting =
    Ret tt (emits [Kill 100 SIGTSTP;
                   Print Stderr
                     (cat ["Error suspending process with SIGSTP: 3"; NL])]
              fg_waiting).
Proof.
  split; [lia|]. split.
  - apply (keyboard_handlers_forward SIGINT (-1) 3 fg_waiting
             (proj1 (proj2 fg_waiting_inv))).
  - apply (keyboard_handlers_forward SIGTSTP (-1) 3 fg_waiting
             (proj1 (proj2 fg_waiting_inv))).
Defined.

Lemma waitfg_returns_with_flag_witness :
  child_finished (final (waitfg 100 (ctrl_z 100) fg_waiting)) ≠ 0 ∧
  (∃ used, ctrl_z 100 = used ++ []) ∧
  last (log (final (waitfg 100 (ctrl_z 100) fg_waiting)))
    = Some (Confirm 100).
Proof.
  apply (waitfg_returns_with_flag 100 (ctrl_z 100) fg_waiting []
           (final (waitfg 100 (ctrl_z 100) fg_waiting))).
  reflexivity.
Defined.

Lemma waitfg_sleeps_through_keyboard_signals_witness :
  ∃ s', waitfg 100 [OnInt 0 0; OnUsr1; OnTstp 0 0] fg_waiting
          = Halt Asleep s' ∧
        jobs s' = jobs fg_waiting ∧ child_finished s' = 0.
Proof.
  apply (waitfg_sleeps_through_keyboard_signals 100
           [OnInt 0 0; OnUsr1; OnTstp 0 0] fg_waiting eq_refl).
  repeat constructor.
Defined.

Lemma jobs_lists_active_jobs_witness :
  eval (cat ["jobs"; NL]) ["jobs"] (OS 0 0 0 0 []) demo_state
    = Ret []
        (emits (concat (job_lines <$> filter active (jobs demo_state)))
           demo_state).
Proof.
  apply (jobs_lists_active_jobs (cat ["jobs"; NL]) [] (OS 0 0 0 0 [])
           demo_state (proj1 (proj2 demo_state_inv))).
Defined.

(** In the demo state, whose jobs have pids 100 and 101: [fg 999], and
    [bg abc], whose argument [atoi] reads as 0. *)
Lemma bgfg_unknown_pid_witness :
  (∃ s', eval (cat ["fg 999"; NL]) ["fg"; "999"] (OS 0 0 0 0 []) demo_state
           = Ret [] s' ∧
         jobs s' = jobs demo_state ∧
         child_finished s' = child_finished demo_state ∧
         sigchld_blocked s' = sigchld_blocked demo_state ∧
         log s' = log demo_state
                  ++ [Print Stdout (cat ["(999): No such process"; NL])]) ∧
  (∃ s', eval (cat ["bg abc"; NL]) ["bg"; "abc"] (OS 0 0 0 0 []) demo_state
           = Ret [] s' ∧
         jobs s' = jobs demo_state ∧
         child_finished s' = child_finished demo_state ∧
         sigchld_blocked s' = sigchld_blocked demo_state ∧
         log s' = log demo_state
                  ++ [Print Stdout (cat ["(0): No such process"; NL])]).
Proof.
  split.
  - apply (bgfg_unknown_pid (cat ["fg 999"; NL]) "fg" "999" (OS 0 0 0 0 [])
             demo_state); [by left|discriminate|exact I|].
    unfold active. apply (bool_decide_unpack _). vm_compute. reflexivity.
  - apply (bgfg_unknown_pid (cat ["bg abc"; NL]) "bg" "abc" (OS 0 0 0 0 [])
             demo_state); [by right|discriminate|exact I|].
    unfold active. apply (bool_decide_unpack _). vm_compute. reflexivity.
Defined.

Lemma bg_resumes_job_witness :
  ∃ s', eval (cat ["bg %2"; NL]) ["bg"; "%2"] (OS 0 0 0 0 []) demo_state
          = Ret [] s' ∧
        jobs s' = alter (set_state BG) 1%nat (jobs demo_state) ∧
        child_finished s' = child_finished demo_state ∧
        sigchld_blocked s' = sigchld_blocked demo_state ∧
        log s' = log demo_state ++ cont_events 101 0
                 ++ [Print Stdout
                       (announce_msg (Job 101 2 ST (cat ["sleep 200"; NL])))].
Proof.
  apply (bg_resumes_job (cat ["bg %2"; NL]) "2" (OS 0 0 0 0 []) demo_state
           1%nat (Job 101 2 ST (cat ["sleep 200"; NL]))); reflexivity.
Defined.

Lemma fg_with_flag_set_returns_witness :
  ∃ s', eval (cat ["fg %1"; NL]) ["fg"; "%1"] (OS 0 0 0 0 []) demo_state
          = Ret [] s' ∧
        jobs s' = alter (set_state FG) 0%nat (jobs demo_state) ∧
        log s' = log demo_state ++ cont_events 100 0 ++ [Confirm 100].
Proof.
  apply (fg_with_flag_set_returns (cat ["fg %1"; NL]) "1" (OS 0 0 0 0 [])
           demo_state 0%nat (Job 100 1 BG (cat ["sleep 100 &"; NL])));
    [discriminate|reflexivity|reflexivity].
Defined.

Lemma fork_failure_witness :
  ∃ s', eval (cat ["ls"; NL]) ["ls"] (OS 0 (-1) 0 0 []) shell0 = Ret [] s' ∧
        jobs s' = jobs shell0 ∧
        sigchld_blocked s' = true ∧
        child_finished s' = 0 ∧
        log s' = log shell0 ++ [Fork (-1);
                                Print Stderr (cat ["fork error"; NL])].
Proof.
  apply (fork_failure (cat ["ls"; NL]) ["ls"] (OS 0 (-1) 0 0 []) shell0
           0 "ls" []); [reflexivity|reflexivity|simpl; lia|simpl; lia].
Defined.

Lemma block_failure_witness :
  eval (cat ["ls"; NL]) ["ls"] (OS (-1) 0 0 0 []) shell0
    = Ret [] (emit (Print Stderr (cat ["sigprocmask error"; NL])) shell0).
Proof.
  apply (block_failure (cat ["ls"; NL]) ["ls"] (OS (-1) 0 0 0 []) shell0
           0 "ls" []); [reflexivity|reflexivity|simpl; lia].
Defined.

Lemma spawn_on_full_table_witness :
  ∃ s', eval (cat ["cat &"; NL]) ["cat"; "&"] (OS 0 117 0 0 []) crowded_state
          = Ret [] s' ∧
        jobs s' = jobs crowded_state ∧
        sigchld_blocked s' = true ∧
        child_finished s' = 0 ∧
        log s' = log crowded_state
                 ++ [Fork 117; Print Stdout full_msg;
                     Print Stderr (cat ["Failed to add job"; NL])].
Proof.
  apply (spawn_on_full_table (cat ["cat &"; NL]) ["cat"; "&"]
           (OS 0 117 0 0 []) crowded_state 1 "cat" []);
    [reflexivity|apply crowded_state_full|reflexivity|reflexivity
    |simpl; lia|simpl; lia].
Defined.

Lemma background_launch_witness :
  ∃ s' i k,
    eval (cat ["sleep 100 &"; NL]) ["sleep"; "100"; "&"] (OS 0 100 0 0 [])
      shell0 = Ret [] s' ∧
    smallest_free_jid (jobs shell0) k ∧
    jobs s' = <[i := Job 100 k BG (cat ["sleep 100 &"; NL])]> (jobs shell0) ∧
    pid <$> (jobs shell0 !! i) = Some 0 ∧
    sigchld_blocked s' = false ∧
    child_finished s' = 0 ∧
    log s' = log shell0
             ++ spawn_events (verbose shell0) 100 k (cat ["sleep 100 &"; NL])
             ++ [Print Stdout
                   (announce_msg (Job 100 k BG (cat ["sleep 100 &"; NL])))].
Proof.
  apply (background_launch (cat ["sleep 100 &"; NL]) ["sleep"; "100"; "&"]
           (OS 0 100 0 0 []) shell0 "sleep" ["100"]
           jobs0_shell_inv jobs0_not_full);
    [reflexivity|reflexivity|reflexivity|simpl; lia|simpl; lia|simpl; lia
    |reflexivity].
Defined.



(** [sleep 100] is stopped; the SIGCHLD arrives during [sigsuspend], or
    is handled as SIGCHLD is unblocked, before the waiter is called. *)
Lemma foreground_job_stops_witness :
  (∃ s' i k,
     eval (cat ["sleep 100"; NL]) ["sleep"; "100"]
       (OS 0 100 0 0 [OnChld [Wait 100 (Stopped 20) 0]]) shell0
       = Ret [] s' ∧
     smallest_free_jid (jobs shell0) k ∧
     jobs s' = <[i := Job 100 k ST (cat ["sleep 100"; NL])]> (jobs shell0) ∧
     pid <$> (jobs shell0 !! i) = Some 0 ∧
     child_finished s' = 1 ∧
     sigchld_blocked s' = false ∧
     log s' = log shell0
              ++ spawn_events (verbose shell0) 100 k (cat ["sleep 100"; NL])
              ++ [Reap 100]
              ++ stop_events k 100 20
              ++ [Confirm 100]) ∧
  (∃ s' i k,
     eval (cat ["sleep 100"; NL]) ["sleep"; "100"]
       (Os 0 100 0 0 [OnChld [Wait 100 (Stopped 20) 0]] []) shell0
       = Ret [] s' ∧
     smallest_free_jid (jobs shell0) k ∧
     jobs s' = <[i := Job 100 k ST (cat ["sleep 100"; NL])]> (jobs shell0) ∧
     pid <$> (jobs shell0 !! i) = Some 0 ∧
     child_finished s' = 1 ∧
     sigchld_blocked s' = false ∧
     log s' = log shell0
              ++ spawn_events (verbose shell0) 100 k (cat ["sleep 100"; NL])
              ++ [Reap 100]
              ++ stop_events k 100 20
              ++ [Confirm 100]).
Proof.
  split.
  - apply (foreground_job_stops (cat ["sleep 100"; NL]) ["sleep"; "100"]
             (OS 0 100 0 0 [OnChld [Wait 100 (Stopped 20) 0]]) shell0
             "sleep" ["100"] 20 [] []
             jobs0_shell_inv jobs0_not_full);
      [reflexivity|reflexivity|reflexivity|simpl; lia|simpl; lia|simpl; lia
      |left; split; reflexivity].
  - apply (foreground_job_stops (cat ["sleep 100"; NL]) ["sleep"; "100"]
             (Os 0 100 0 0 [OnChld [Wait 100 (Stopped 20) 0]] []) shell0
             "sleep" ["100"] 20 [] []
             jobs0_shell_inv jobs0_not_full);
      [reflexivity|reflexivity|reflexivity|simpl; lia|simpl; lia|simpl; lia
      |right; split; reflexivity].
Defined.

Lemma parseline_typed_line_witness :
  parseline (typed_line [Plain "echo"; Quoted "a b"; Plain "c'd"; Plain "&"])
    = Some ["echo"; "a b"; "c'd"; "&"].
Proof.
  apply (parseline_typed_line
           [Plain "echo"; Quoted "a b"; Plain "c'd"; Plain "&"]).
  - repeat constructor.
  - apply Nat.ltb_lt. vm_compute. reflexivity.
  - apply Nat.ltb_lt. vm_compute. reflexivity.
Defined.

Lemma parseline_unclosed_quote_witness :
  parseline (typed_line ([Plain "echo"; Plain "hi"] ++
                            [Plain (String "'" "a b c")]))
    = Some ["echo"; "hi"].
Proof.
  apply (parseline_unclosed_quote [Plain "echo"; Plain "hi"] "a b c").
  - repeat constructor.
  - reflexivity.
  - apply Nat.ltb_lt. vm_compute. reflexivity.
  - apply Nat.ltb_lt. vm_compute. reflexivity.
Defined.

Lemma blank_line_is_ignored_witness :
  eval_cmdline (String.append (blanks 3) NL) (OS 0 0 0 0 []) demo_state
    = Ret [] demo_state.
Proof.
  apply (blank_line_is_ignored 3 (OS 0 0 0 0 []) demo_state).
  apply Nat.ltb_lt. vm_compute. reflexivity.
Defined.
End Witnesses2.
